(** * nibabel.arrayproxy: a shallow embedding of [ArrayProxy]

    The development follows [nibabel/arrayproxy.py].  Python objects that
    the module mutates or shares (header objects, [ImageOpener] instances,
    locks) live in an explicit store, the [world]; methods are functions
    that thread the world and return a [result].  Python integers are
    [Z], numpy's 64-bit integers wrap around, and slopes and intercepts
    are rationals [Q]; what floating-point arithmetic does to an array is
    left to the function that scales, which the module imports. *)

From Stdlib Require Import ZArith QArith List String Bool Lia.
From stdpp Require Import base gmap strings list.

Local Open Scope Z_scope.
Local Open Scope string_scope.
Local Open Scope list_scope.

(** ** Exceptions and results *)

Inductive exn : Type :=
| ValueError (msg : string)
| TypeError (msg : string)
| AttributeError (msg : string)
| IOError (msg : string)
| Unmodelled (msg : string).  (* a value of a Python type the model leaves out *)

Inductive result (A : Type) : Type :=
| Ok (a : A)
| Raise (e : exn).

Arguments Ok {A} a.
Arguments Raise {A} e.

Definition is_ok {A} (r : result A) : bool :=
  match r with Ok _ => true | Raise _ => false end.

(** ** Sources

    [file_like] is either a file name or a file-like object.  The module
    only ever probes it with [hasattr(file_like, 'read')],
    [hasattr(file_like, 'seek')] and [file_like.endswith('.gz')]; [as_str]
    is the string when the object is a [str] (the only objects here that
    provide [endswith]). *)

Record file_like_t : Type := FileLike {
  has_read : bool;
  has_seek : bool;
  as_str : option string
}.

Definition filename (s : string) : file_like_t :=
  {| has_read := false; has_seek := false; as_str := Some s |}.

Definition fileobj_stream : file_like_t :=
  {| has_read := true; has_seek := true; as_str := None |}.

(** [s.endswith(suffix)] on Python strings. *)
Definition endswith (s suffix : string) : bool :=
  let n := String.length s in
  let k := String.length suffix in
  (k <=? n)%nat && String.eqb (String.substring (n - k) k s) suffix.

(** ** The [keep_file_open] flag

    The values a caller may pass: [None], ['auto'], [True], [False], or
    any other object ([KOther]: a value that compares unequal to ['auto'],
    [True] and [False]). *)

Inductive kfo : Type :=
| KNone
| KAuto
| KBool (b : bool)
| KOther.

(** The module-level default, as the module defines it.  It is a mutable
    global: its current value is part of the [world] below, and
    [_should_keep_file_open] takes it as an argument. *)
Definition KEEP_FILE_OPEN_DEFAULT : kfo := KBool false.

(** [keep_file_open in ('auto', True, False)] *)
Definition kfo_in_auto_true_false (k : kfo) : bool :=
  match k with
  | KAuto | KBool _ => true
  | KNone | KOther => false
  end.

(** Python truthiness of a [keep_file_open] value ([if self._keep_file_open:]). *)
Definition truthy (k : kfo) : bool :=
  match k with
  | KAuto => true
  | KBool b => b
  | KNone => false
  | KOther => true
  end.

(** The two handle policies of the specification, and the policy that a
    stored [_keep_file_open] value selects in [_get_fileobj]. *)
Inductive HandlePolicy : Type := AlwaysOpenFresh | KeepOpenPersistent.

Definition policy_of (k : kfo) : HandlePolicy :=
  if truthy k then KeepOpenPersistent else AlwaysOpenFresh.

(** [ArrayProxy._should_keep_file_open]; [default] is the current value of
    the global [KEEP_FILE_OPEN_DEFAULT] and [have_indexed_gzip] the value
    of [openers.HAVE_INDEXED_GZIP]. *)
Definition _should_keep_file_open
    (default : kfo) (have_indexed_gzip : bool)
    (file_like : file_like_t) (keep_file_open : kfo) : result kfo :=
  let keep_file_open :=
    match keep_file_open with KNone => default | k => k end in
  if negb (kfo_in_auto_true_false keep_file_open) then
    Raise (ValueError "keep_file_open should be one of {None, 'auto', True, False}")
  else if has_read file_like && has_seek file_like then
    Ok (KBool false)
  else
    match keep_file_open with
    | KAuto =>
        (* not (openers.HAVE_INDEXED_GZIP and file_like.endswith('.gz')) *)
        if have_indexed_gzip then
          match as_str file_like with
          | Some s => if negb (endswith s ".gz") then Ok (KBool false)
                      else Ok keep_file_open
          | None => Raise (AttributeError "endswith")
          end
        else Ok (KBool false)
    | _ => Ok keep_file_open
    end.

(** ** Values of the constructor

    [mmap] as passed to [__init__]: [True], [False], ['c'], ['r'], or any
    other object. *)

Inductive mmap_t : Type := MmapTrue | MmapFalse | MmapC | MmapR | MmapOther.

(** [mmap in (True, False, 'c', 'r')] *)
Definition mmap_in_allowed (m : mmap_t) : bool :=
  match m with MmapOther => false | _ => true end.

(** A numpy dtype object, identified by its canonical name, and the
    specifiers [numpy.dtype] is called on: an existing dtype object or a
    string to be interpreted by numpy. *)
Inductive dtype : Type := Dtype (name : string).

Inductive dtype_spec : Type :=
| DtObj (d : dtype)
| DtStr (s : string).

(** The Python values that occur as items of a spec tuple. *)
Inductive pyval : Type :=
| VShape (shape : list Z)
| VDtype (d : dtype_spec)
| VInt (z : Z)
| VFloat (q : Q).

(** What a header object reports; [None] for an unset slope or intercept. *)
Record header_data : Type := HeaderData {
  hd_shape : list Z;
  hd_dtype : dtype_spec;
  hd_offset : Z;
  hd_slope : option Q;
  hd_inter : option Q
}.

(** The [spec] argument: a tuple, a header object (a reference into the
    store), or an object that is neither sized nor a header. *)
Inductive spec_t : Type :=
| SpecTuple (items : list pyval)
| SpecHeader (ref : nat)
| SpecObject.

(** Slice specifications handed through to [fileslice]. *)
Inductive slice_item : Type :=
| SIndex (i : Z)
| SSlice (start stop step : option Z).

(** ** The store

    An [ImageOpener] object: the source it was built on, the [keep_open]
    flag it received, whether it opened the underlying file itself, and
    whether it is closed. *)

Record opener_state : Type := OpenerState {
  op_source : file_like_t;
  op_keep_open : kfo;
  me_opened : bool;
  closed : bool
}.

Inductive event : Type :=
| EvOpen (source : file_like_t) (keep_open : kfo)   (* ImageOpener(...) called *)
| EvClose (h : nat)                                 (* underlying file closed *)
| EvAcquire (lock : nat)
| EvRelease (lock : nat)
| EvRead (fileobj : option nat)                     (* array_from_file *)
| EvSlice (fileobj : option nat) (lock : nat).      (* fileslice *)

Record world : Type := World {
  keep_file_open_default : kfo;     (* the global KEEP_FILE_OPEN_DEFAULT *)
  headers : gmap nat header_data;   (* header objects, by identity *)
  openers : gmap nat opener_state;  (* ImageOpener objects, by identity *)
  locks : gset nat;                 (* RLock objects created so far *)
  trace : list event
}.

(** The state right after the module is imported. *)
Definition initial_world : world :=
  {| keep_file_open_default := KEEP_FILE_OPEN_DEFAULT;
     headers := ∅; openers := ∅; locks := ∅; trace := [] |}.

Definition log (e : event) (w : world) : world :=
  {| keep_file_open_default := keep_file_open_default w;
     headers := headers w; openers := openers w;
     locks := locks w; trace := trace w ++ [e] |}.

Definition set_default (k : kfo) (w : world) : world :=
  {| keep_file_open_default := k;
     headers := headers w; openers := openers w;
     locks := locks w; trace := trace w |}.

Definition set_headers (hs : gmap nat header_data) (w : world) : world :=
  {| keep_file_open_default := keep_file_open_default w;
     headers := hs; openers := openers w;
     locks := locks w; trace := trace w |}.

Definition set_openers (os : gmap nat opener_state) (w : world) : world :=
  {| keep_file_open_default := keep_file_open_default w;
     headers := headers w; openers := os;
     locks := locks w; trace := trace w |}.

Definition set_locks (ls : gset nat) (w : world) : world :=
  {| keep_file_open_default := keep_file_open_default w;
     headers := headers w; openers := openers w;
     locks := ls; trace := trace w |}.

(** ** Methods as state-and-exception computations

    A computation runs on a state [S], returns a value or raises, and
    leaves a state behind in both cases. *)

Definition St (S A : Type) : Type := S -> result A * S.

Definition ret {S A} (a : A) : St S A := fun s => (Ok a, s).
Definition raise {S A} (e : exn) : St S A := fun s => (Raise e, s).
Definition bind {S A B} (c : St S A) (k : A -> St S B) : St S B :=
  fun s => match c s with
           | (Ok a, s') => k a s'
           | (Raise e, s') => (Raise e, s')
           end.
Definition lift {S A} (r : result A) : St S A := fun s => (r, s).

Notation "'let!' x ':=' c 'in' k" := (bind c (fun x => k))
  (at level 10, x name, c at level 100, k at level 200).
Notation "'run!' c 'in' k" := (bind c (fun _ => k))
  (at level 10, c at level 100, k at level 200).

(** Module-level code runs on the [world]. *)
Definition M (A : Type) : Type := St world A.

(** Number of [ImageOpener] invocations recorded in a trace. *)
Definition is_open_event (e : event) : bool :=
  match e with EvOpen _ _ => true | _ => false end.

Definition opener_invocations (t : list event) : nat :=
  length (filter (fun e => is_open_event e = true) t).

(** Number of times the file behind opener [h] was closed. *)
Definition is_close_of (h : nat) (e : event) : bool :=
  match e with EvClose h' => Nat.eqb h h' | _ => false end.

Definition closes_of (h : nat) (t : list event) : nat :=
  length (filter (fun e => is_close_of h e = true) t).

(** ** External collaborators

    What the module imports and calls but does not define: numpy's
    interpretation of a string dtype specifier, whether opening a source
    succeeds, the raw reader, the slicer, the scaling function
    [volumeutils.apply_read_scaling] and the flag
    [openers.HAVE_INDEXED_GZIP].  The reader and the slicer see the opener
    object they are handed (or [None]) and the read parameters; the
    scaling function sees the raw array, the slope and the intercept, and
    what floating-point type and arithmetic it uses is its own affair. *)

Record collaborators : Type := Collaborators {
  HAVE_INDEXED_GZIP : bool;
  dtype_of_str : string -> option dtype;
  can_open : file_like_t -> bool;
  array_from_file :
    list Z -> dtype -> option opener_state -> Z -> string -> mmap_t ->
    result (list Q);
  fileslice :
    option opener_state -> list slice_item -> list Z -> dtype -> Z -> string ->
    result (list Q);
  apply_read_scaling : list Q -> Q -> Q -> result (list Q)
}.

(** [numpy.dtype(spec)]: a dtype object is returned as it is, a string is
    interpreted by numpy, which raises [TypeError] when it cannot. *)
Definition np_dtype (ext : collaborators) (d : dtype_spec) : result dtype :=
  match d with
  | DtObj d => Ok d
  | DtStr s => match dtype_of_str ext s with
               | Some d => Ok d
               | None => Raise (TypeError "data type not understood")
               end
  end.

(** The value a 64-bit signed integer of numpy holds after an operation
    whose exact result is [z]: [z] wrapped around into the range from
    [-2^63] to [2^63 - 1]. *)
Definition wrap64 (z : Z) : Z := (z + 2 ^ 63) mod 2 ^ 64 - 2 ^ 63.

(** [numpy.prod] of a shape.  numpy turns a tuple of Python integers that
    fit 64 bits into an array of its type [int64] and multiplies the
    entries in that type, each product wrapping around; tuples with
    larger entries get another array type and are outside the model.  The
    product of the empty tuple is numpy's float [1.0], which the module
    only compares and divides, and which behaves there as the integer 1
    does: dimensions and sizes are modelled by their integer values,
    whether they are Python integers or numpy scalars. *)
Definition np_prod (shape : list Z) : Z :=
  fold_left (fun acc e => wrap64 (acc * e)) shape 1.

(** [functools.reduce(operator.mul, shape, init)] *)
Definition reduce_mul (shape : list Z) (init : Z) : Z :=
  fold_left Z.mul shape init.

(** ** [openers.ImageOpener] *)

(** Modelled from the spec: the class [ImageOpener] of [nibabel.openers]
    is not part of this module.  Section 6 gives its interface:
    [open(source, keep_open) -> handle], a handle with [close_if_owned()]
    and a closed/open query; section 5 says a handle handed over already
    open is never closed by the proxy.  Every call is recorded as an
    [EvOpen]; it yields a new opener object, which owns the underlying
    file exactly when the source is not an already open stream. *)
Definition ImageOpener (ext : collaborators)
    (source : file_like_t) (keep_open : kfo) : M nat :=
  fun w =>
    let w := log (EvOpen source keep_open) w in
    if can_open ext source then
      let h := fresh (dom (openers w)) in
      (Ok h,
       set_openers
         (<[h := {| op_source := source; op_keep_open := keep_open;
                    me_opened := negb (has_read source && has_seek source);
                    closed := false |}]> (openers w)) w)
    else (Raise (IOError "cannot open"), w).

(** Modelled from the spec: [opener.closed], the closed/open query of
    section 6; [None] when the reference is not an opener. *)
Definition opener_closed (h : nat) (w : world) : option bool :=
  closed <$> openers w !! h.

(** Modelled from the spec: [opener.close_if_mine()], the
    [close_if_owned()] of section 6: closes the underlying file if and
    only if the opener opened it. *)
Definition close_if_mine (h : nat) (w : world) : world :=
  match openers w !! h with
  | Some o =>
      if me_opened o then
        log (EvClose h)
          (set_openers
             (<[h := {| op_source := op_source o; op_keep_open := op_keep_open o;
                        me_opened := me_opened o; closed := true |}]> (openers w)) w)
      else w
  | None => w
  end.

(** ** Header objects *)

(** Modelled from the spec: the descriptor capability set of section 6
    ([get_shape], [get_dtype], [get_offset], [get_slope_and_intercept],
    [copy() -> detached descriptor]); header classes are defined in other
    modules.  A header is a mutable object in the store; [copy] creates
    a new object with the same contents. *)
Definition header_get (ref : nat) : M header_data :=
  fun w => match headers w !! ref with
           | Some hd => (Ok hd, w)
           | None => (Raise (AttributeError "get_data_shape"), w)
           end.

(** Modelled from the spec: [copy() -> detached descriptor] of section 6;
    the copy is a new object of the store with the same contents. *)
Definition header_copy (ref : nat) : M nat :=
  let! hd := header_get ref in
  fun w => let c := fresh (dom (headers w)) in
           (Ok c, set_headers (<[c := hd]> (headers w)) w).

(** Mutation of a header object by its owner: any field may be replaced. *)
Definition header_set (ref : nat) (hd : header_data) (w : world) : world :=
  set_headers (<[ref := hd]> (headers w)) w.

(** [threading.RLock()] *)
Definition RLock : M nat :=
  fun w => let l := fresh (locks w) in (Ok l, set_locks ({[l]} ∪ locks w) w).

(** ** The proxy object

    The instance attributes of an [ArrayProxy].  [_header] is [None]
    unless the proxy was built from a header; [_opener] is [None] while
    the attribute does not exist, [Some None] once it holds [None], and
    [Some (Some h)] when it holds the opener object [h]. *)

Record ArrayProxy : Type := MkArrayProxy {
  file_like : file_like_t;
  _header : option nat;
  _shape : list Z;
  _dtype : dtype;
  _offset : Z;
  _slope : Q;
  _inter : Q;
  _mmap : mmap_t;
  _keep_file_open : kfo;
  _lock : nat;
  _opener : option (option nat)
}.

(** Assume Fortran array memory layout *)
Definition order : string := "F".

Definition set_opener (o : option (option nat)) (self : ArrayProxy) : ArrayProxy :=
  {| file_like := file_like self; _header := _header self;
     _shape := _shape self; _dtype := _dtype self; _offset := _offset self;
     _slope := _slope self; _inter := _inter self; _mmap := _mmap self;
     _keep_file_open := _keep_file_open self; _lock := _lock self;
     _opener := o |}.

(** The read-only properties. *)
Definition header (self : ArrayProxy) : option nat := _header self.
Definition shape (self : ArrayProxy) : list Z := _shape self.
Definition dtype_of (self : ArrayProxy) : dtype := _dtype self.
Definition offset (self : ArrayProxy) : Z := _offset self.
Definition slope (self : ArrayProxy) : Q := _slope self.
Definition inter (self : ArrayProxy) : Q := _inter self.

(** ** Construction *)

(** [optional = (0, 1., 0.)] *)
Definition optional : list pyval := [VInt 0; VFloat 1; VFloat 0].

(** Lines 143-156 of [__init__]: the tuple [par] and the retained header
    copy, from a header object or from a tuple of length 2 to 5. *)
Definition resolve_par (spec : spec_t) : M (list pyval * option nat) :=
  match spec with
  | SpecHeader ref =>
      let! hd := header_get ref in
      let par := [VShape (hd_shape hd);
                  VDtype (hd_dtype hd);
                  VInt (hd_offset hd);
                  VFloat (match hd_slope hd with None => 1 | Some s => s end);
                  VFloat (match hd_inter hd with None => 0 | Some i => i end)] in
      let! c := header_copy ref in
      ret (par, Some c)
  | SpecTuple items =>
      let n := length items in
      if (2 <=? n)%nat && (n <=? 5)%nat then
        ret (items ++ drop (n - 2) optional, None)
      else raise (TypeError "spec must be tuple of length 2-5 or header object")
  | SpecObject =>
      (* neither [get_data_shape] nor [len] *)
      raise (TypeError "object has no len()")
  end.

Definition as_num (v : pyval) : option Q :=
  match v with
  | VInt z => Some (inject_Z z)
  | VFloat q => Some q
  | _ => None
  end.

(** [self._shape, self._dtype, self._offset, self._slope, self._inter = par];
    the attributes are typed here, an item of another Python type in a
    slot is left out of the model. *)
Definition unpack (par : list pyval)
  : result (list Z * dtype_spec * Z * Q * Q) :=
  match par with
  | [VShape sh; VDtype d; VInt off; sl; it] =>
      match as_num sl, as_num it with
      | Some s, Some i => Ok (sh, d, off, s, i)
      | _, _ => Raise (Unmodelled "slope or intercept is not a number")
      end
  | _ => Raise (Unmodelled "spec item of another type")
  end.

Section WithCollaborators.

Variable ext : collaborators.

(** The canonical read parameters of a proxy. *)
Record ArraySpec : Type := MkArraySpec {
  as_header : option nat;
  as_shape : list Z;
  as_dtype : dtype;
  as_offset : Z;
  as_slope : Q;
  as_inter : Q
}.

(** Lines 143-161 of [__init__]: from the [spec] argument to the values
    stored in the proxy, the dtype going through [np.dtype]. *)
Definition resolve_spec (spec : spec_t) : M ArraySpec :=
  let! ph := resolve_par spec in
  let! u := lift (unpack (fst ph)) in
  let '(sh, d, off, sl, it) := u in
  let! dt := lift (np_dtype ext d) in
  ret {| as_header := snd ph; as_shape := sh; as_dtype := dt;
         as_offset := off; as_slope := sl; as_inter := it |}.

(** [ArrayProxy.__init__(self, file_like, spec, mmap=True, keep_file_open=None)] *)
Definition __init__ (file_like : file_like_t) (spec : spec_t)
    (mmap : mmap_t) (keep_file_open : kfo) : M ArrayProxy :=
  if negb (mmap_in_allowed mmap) then
    raise (ValueError "mmap should be one of {True, False, 'c', 'r'}")
  else
    let! a := resolve_spec spec in
    let! k := (fun w => lift (_should_keep_file_open
                               (keep_file_open_default w) (HAVE_INDEXED_GZIP ext)
                               file_like keep_file_open) w) in
    let! l := RLock in
    ret {| file_like := file_like; _header := as_header a;
           _shape := as_shape a; _dtype := as_dtype a; _offset := as_offset a;
           _slope := as_slope a; _inter := as_inter a; _mmap := mmap;
           _keep_file_open := k; _lock := l; _opener := None |}.

(** ** Methods that use the proxy's own state

    A method runs on the pair of the instance and the world: [_get_fileobj]
    assigns [self._opener], [__del__] clears it. *)

Definition PM (A : Type) : Type := St (ArrayProxy * world) A.

(** Run module-level code inside a method. *)
Definition in_world {A} (c : M A) : PM A :=
  fun '(self, w) => let '(r, w') := c w in (r, (self, w')).

Definition emit (e : event) : PM unit :=
  fun '(self, w) => (Ok tt, (self, log e w)).

(** [ArrayProxy.__del__] *)
Definition __del__ : PM unit :=
  fun '(self, w) =>
    match _opener self with
    | Some (Some h) =>
        match opener_closed h w with
        | Some false =>
            (Ok tt, (set_opener (Some None) self, close_if_mine h w))
        | Some true => (Ok tt, (self, w))
        | None => (Raise (AttributeError "closed"), (self, w))
        end
    | Some None =>
        (* hasattr succeeds, [None.closed] does not *)
        (Raise (AttributeError "'NoneType' object has no attribute 'closed'"),
         (self, w))
    | None => (Ok tt, (self, w))
    end.

(** The context manager [ArrayProxy._get_fileobj], applied to the body of
    the [with] statement that uses it.  The body receives what the
    generator yields. *)
Definition _get_fileobj {A} (body : option nat -> PM A) : PM A :=
  fun '(self, w) =>
    if truthy (_keep_file_open self) then
      match _opener self with
      | None =>
          match ImageOpener ext (file_like self) (_keep_file_open self) w with
          | (Ok h, w1) => body (Some h) (set_opener (Some (Some h)) self, w1)
          | (Raise e, w1) => (Raise e, (self, w1))
          end
      | Some o => body o (self, w)
      end
    else
      (* with openers.ImageOpener(self.file_like) as opener: yield opener *)
      match ImageOpener ext (file_like self) (KBool false) w with
      | (Ok h, w1) =>
          let '(r, (self', w2)) := body (Some h) (self, w1) in
          (r, (self', close_if_mine h w2))
      | (Raise e, w1) => (Raise e, (self, w1))
      end.

(** [with lock: body] on the proxy's [RLock] *)
Definition with_lock {A} (body : PM A) : PM A :=
  fun '(self, w) =>
    let l := _lock self in
    let '(r, (self', w')) := body (self, log (EvAcquire l) w) in
    (r, (self', log (EvRelease l) w')).

(** The opener object behind what [_get_fileobj] yielded. *)
Definition deref (fileobj : option nat) (w : world) : option opener_state :=
  match fileobj with Some h => openers w !! h | None => None end.

(** [ArrayProxy.get_unscaled] *)
Definition get_unscaled : PM (list Q) :=
  _get_fileobj (fun fileobj =>
    with_lock (
      run! emit (EvRead fileobj) in
      fun '(self, w) =>
        (array_from_file ext (_shape self) (_dtype self) (deref fileobj w)
           (_offset self) order (_mmap self),
         (self, w)))).

(** [ArrayProxy.__array__] *)
Definition __array__ : PM (list Q) :=
  let! raw_data := get_unscaled in
  fun '(self, w) =>
    (apply_read_scaling ext raw_data (_slope self) (_inter self), (self, w)).

(** [ArrayProxy.__getitem__] *)
Definition __getitem__ (slicer : list slice_item) : PM (list Q) :=
  let! raw_data :=
    _get_fileobj (fun fileobj =>
      fun '(self, w) =>
        (fileslice ext (deref fileobj w) slicer (_shape self) (_dtype self)
           (_offset self) order,
         (self, log (EvSlice fileobj (_lock self)) w))) in
  fun '(self, w) =>
    (apply_read_scaling ext raw_data (_slope self) (_inter self), (self, w)).

(** The error of lines 323-325.  The message is built by formatting
    [size] with [{:d}]; when the proxy's shape is empty [size] is the
    float [1.0], the formatting itself fails, and the [ValueError] that
    leaves [reshape] is that of [format]. *)
Definition reshape_mismatch (self_shape : list Z) : exn :=
  match self_shape with
  | [] => ValueError "Unknown format code 'd' for object of type 'float'"
  | _ :: _ => ValueError "cannot reshape array"
  end.

(** [ArrayProxy.reshape].  [size] is a numpy scalar, [known_size] a Python
    integer computed exactly by [reduce], and [//] numpy's floor division
    of the one by the other, which returns 0 for a zero divisor, as
    [Z.div] does; a [known_size] beyond 64 bits is outside the model. *)
Definition reshape (self : ArrayProxy) (shape : list Z) : M ArrayProxy :=
  let size := np_prod (_shape self) in
  let n_unknowns := length (filter (fun e => e = -1) shape) in
  if (1 <? n_unknowns)%nat then
    raise (ValueError "can only specify one unknown dimension")
  else
    let shape :=
      if (n_unknowns =? 1)%nat then
        let known_size := reduce_mul shape (-1) in
        let unknown_size := size / known_size in
        map (fun e => if (e =? -1)%Z then unknown_size else e) shape
      else shape in
    if negb (np_prod shape =? size)%Z then
      raise (reshape_mismatch (_shape self))
    else
      __init__ (file_like self)
        (SpecTuple [VShape shape; VDtype (DtObj (_dtype self));
                    VInt (_offset self); VFloat (_slope self);
                    VFloat (_inter self)])
        (_mmap self) KNone.

End WithCollaborators.

(** ** Pickling

    The instance dictionary [self.__dict__]: attribute names mapped to
    their values.  [_header] is an instance attribute only when the proxy
    was built from a header, [_opener] only once it has been assigned. *)

Inductive attr : Type :=
| AFileLike (f : file_like_t)
| AHeader (ref : nat)
| AShape (shape : list Z)
| ADtype (d : dtype)
| AInt (z : Z)
| AFloat (q : Q)
| AMmap (m : mmap_t)
| AKfo (k : kfo)
| ALock (lock : nat)
| AOpener (o : option nat).

Definition insert_opt (k : string) (v : option attr)
    (d : gmap string attr) : gmap string attr :=
  match v with Some a => <[k := a]> d | None => d end.

Definition __dict__ (self : ArrayProxy) : gmap string attr :=
  insert_opt "_opener" (AOpener <$> _opener self)
  (insert_opt "_header" (AHeader <$> _header self)
  (<["_lock" := ALock (_lock self)]>
  (<["_keep_file_open" := AKfo (_keep_file_open self)]>
  (<["_mmap" := AMmap (_mmap self)]>
  (<["_inter" := AFloat (_inter self)]>
  (<["_slope" := AFloat (_slope self)]>
  (<["_offset" := AInt (_offset self)]>
  (<["_dtype" := ADtype (_dtype self)]>
  (<["_shape" := AShape (_shape self)]>
  (<["file_like" := AFileLike (file_like self)]> ∅)))))))))).

(** An attribute that may be missing from the instance dictionary:
    [Some None] when it is, [None] when it holds an unexpected value. *)
Definition header_attr (d : gmap string attr) : option (option nat) :=
  match d !! "_header" with
  | None => Some None
  | Some (AHeader r) => Some (Some r)
  | Some _ => None
  end.

Definition opener_attr (d : gmap string attr) : option (option (option nat)) :=
  match d !! "_opener" with
  | None => Some None
  | Some (AOpener o) => Some (Some o)
  | Some _ => None
  end.

(** The instance whose dictionary is [d], when [d] has the attributes
    every method relies on. *)
Definition instance_of_dict (d : gmap string attr) : option ArrayProxy :=
  match d !! "file_like", d !! "_shape", d !! "_dtype", d !! "_offset",
        d !! "_slope", d !! "_inter", d !! "_mmap", d !! "_keep_file_open",
        d !! "_lock", header_attr d, opener_attr d with
  | Some (AFileLike f), Some (AShape sh), Some (ADtype dt), Some (AInt off),
    Some (AFloat sl), Some (AFloat it), Some (AMmap m), Some (AKfo k),
    Some (ALock l), Some hdr, Some opn =>
      Some {| file_like := f; _header := hdr;
              _shape := sh; _dtype := dt; _offset := off; _slope := sl;
              _inter := it; _mmap := m; _keep_file_open := k; _lock := l;
              _opener := opn |}
  | _, _, _, _, _, _, _, _, _, _, _ => None
  end.

(** [ArrayProxy.__getstate__]: [state = self.__dict__.copy();
    state.pop('_lock', None)] *)
Definition __getstate__ (self : ArrayProxy) : gmap string attr :=
  delete "_lock" (__dict__ self).

(** [ArrayProxy.__setstate__], on the dictionary of the instance being
    restored: [self.__dict__.update(state); self._lock = RLock()].  The
    result is the instance's new dictionary. *)
Definition __setstate__ (self_dict state : gmap string attr)
  : M (gmap string attr) :=
  let! l := RLock in
  ret (<["_lock" := ALock l]> (state ∪ self_dict)).

(** Unpickling: the instance is created without [__init__] (empty
    dictionary) and handed the state. *)
Definition unpickle (state : gmap string attr) : M (gmap string attr) :=
  __setstate__ ∅ state.

(** ** Auxiliary notions used in the statements *)

(** The handle-policy rule of the specification, in its words: the source
    is an already open stream; indexed random access is available for the
    source; the three rules in order.  [requested] is the mode after
    [Default] has been resolved to the configured default. *)
Definition is_open_stream (f : file_like_t) : bool :=
  has_read f && has_seek f.

Definition indexed_access_available (have_indexed_gzip : bool)
    (f : file_like_t) : bool :=
  have_indexed_gzip &&
  match as_str f with Some s => endswith s ".gz" | None => false end.

Definition is_auto (k : kfo) : bool :=
  match k with KAuto => true | _ => false end.

Definition policy_rules (have_indexed_gzip : bool) (f : file_like_t)
    (requested : kfo) : HandlePolicy :=
  if is_open_stream f then AlwaysOpenFresh
  else if is_auto requested && negb (indexed_access_available have_indexed_gzip f)
  then AlwaysOpenFresh
  else match requested with
       | KAuto => KeepOpenPersistent
       | KBool true => KeepOpenPersistent
       | _ => AlwaysOpenFresh
       end.

(** [keep_file_open] after [None] has been replaced by the default. *)
Definition requested_mode (default keep_file_open : kfo) : kfo :=
  match keep_file_open with KNone => default | k => k end.

(** The read operations of a proxy, and runs of several of them in
    sequence on the same instance (a read that raises is followed by the
    next one, as in a caller that catches the exception). *)
Inductive read_op : Type :=
| ReadUnscaled
| ReadArray
| ReadItem (slicer : list slice_item).

Definition run_read (ext : collaborators) (op : read_op) : PM (list Q) :=
  match op with
  | ReadUnscaled => get_unscaled ext
  | ReadArray => __array__ ext
  | ReadItem s => __getitem__ ext s
  end.

Fixpoint run_reads (ext : collaborators) (ops : list read_op)
    (s : ArrayProxy * world) : ArrayProxy * world :=
  match ops with
  | [] => s
  | op :: ops => run_reads ext ops (snd (run_read ext op s))
  end.

(** The opener objects that reads and slices were handed, in order. *)
Definition fileobj_of (e : event) : option (option nat) :=
  match e with
  | EvRead f => Some f
  | EvSlice f _ => Some f
  | _ => None
  end.

Definition fileobjs_used (t : list event) : list (option nat) :=
  omap fileobj_of t.

(** Whether every [ImageOpener] call in a trace happens while lock [l] is
    held; [depth] counts the acquisitions of the re-entrant lock. *)
Fixpoint opens_under_lock (l : nat) (depth : nat) (t : list event) : bool :=
  match t with
  | [] => true
  | EvOpen _ _ :: t => negb (Nat.eqb depth 0) && opens_under_lock l depth t
  | EvAcquire l' :: t =>
      opens_under_lock l (if Nat.eqb l l' then S depth else depth) t
  | EvRelease l' :: t =>
      opens_under_lock l (if Nat.eqb l l' then Nat.pred depth else depth) t
  | _ :: t => opens_under_lock l depth t
  end.

(** [n] calls of [__del__] on the same instance. *)
Fixpoint del_n (n : nat) (s : ArrayProxy * world) : ArrayProxy * world :=
  match n with
  | O => s
  | S n => del_n n (snd (__del__ s))
  end.

(** A caller mutating a header object it holds, several times. *)
Definition mutate_header (ref : nat) (muts : list header_data) (w : world)
  : world :=
  fold_left (fun w hd => header_set ref hd w) muts w.

Definition set_lock (l : nat) (self : ArrayProxy) : ArrayProxy :=
  {| file_like := file_like self; _header := _header self;
     _shape := _shape self; _dtype := _dtype self; _offset := _offset self;
     _slope := _slope self; _inter := _inter self; _mmap := _mmap self;
     _keep_file_open := _keep_file_open self; _lock := l;
     _opener := _opener self |}.

(** The events a read adds once it has its opener: [get_unscaled] (and
    [__array__], which calls it) reads under the proxy's lock,
    [__getitem__] hands the lock to [fileslice]. *)
Definition body_events (op : read_op) (lock : nat) (fileobj : option nat)
  : list event :=
  match op with
  | ReadUnscaled | ReadArray =>
      [EvAcquire lock; EvRead fileobj; EvRelease lock]
  | ReadItem _ => [EvSlice fileobj lock]
  end.

(** Several events appended to the trace. *)
Definition logs (evs : list event) (w : world) : world :=
  {| keep_file_open_default := keep_file_open_default w;
     headers := headers w; openers := openers w;
     locks := locks w; trace := trace w ++ evs |}.

(** The world after a successful [ImageOpener(source, keep_open)]. *)
Definition opened (source : file_like_t) (keep_open : kfo) (w : world) : world :=
  set_openers
    (<[fresh (dom (openers w)) :=
         {| op_source := source; op_keep_open := keep_open;
            me_opened := negb (has_read source && has_seek source);
            closed := false |}]> (openers w))
    (log (EvOpen source keep_open) w).

(** A concrete environment for examples: numpy understands ["i2"] and
    ["f4"], every source but the file name ["missing"] can be opened,
    reading through an open opener returns the numbers 0, 1, 2, and
    scaling leaves an array alone under slope 1 and intercept 0 and maps
    it through [x * slope + inter] otherwise. *)
Definition sample_ext : collaborators :=
  {| HAVE_INDEXED_GZIP := true;
     dtype_of_str := fun s =>
       if String.eqb s "i2" then Some (Dtype "int16")
       else if String.eqb s "f4" then Some (Dtype "float32") else None;
     can_open := fun f =>
       match as_str f with
       | Some s => negb (String.eqb s "missing")
       | None => true
       end;
     array_from_file := fun _ _ o _ _ _ =>
       match o with
       | Some st => if closed st then Raise (ValueError "I/O operation on closed file")
                    else Ok [0%Q; 1%Q; 2%Q]
       | None => Raise (AttributeError "'NoneType' object has no attribute 'read'")
       end;
     fileslice := fun o _ _ _ _ _ =>
       match o with
       | Some st => if closed st then Raise (ValueError "I/O operation on closed file")
                    else Ok [1%Q]
       | None => Raise (AttributeError "'NoneType' object has no attribute 'read'")
       end;
     apply_read_scaling := fun arr slope inter =>
       if Qeq_bool slope 1 && Qeq_bool inter 0 then Ok arr
       else Ok (map (fun x => (x * slope + inter)%Q) arr) |}.

(** A computation that opens, closes and reads nothing: it leaves the
    trace, the openers and the global default as they are (it may create
    header copies and locks). *)
Definition quiet {A} (c : M A) : Prop :=
  forall w, trace (snd (c w)) = trace w
            /\ openers (snd (c w)) = openers w
            /\ keep_file_open_default (snd (c w)) = keep_file_open_default w.

(** A proxy on the file ["img.nii"], as [__init__] builds it in the
    initial world from the spec [((3,), 'i2')], with the given
    [keep_file_open]. *)
Definition sample_proxy (k : kfo) : ArrayProxy :=
  {| file_like := filename "img.nii"; _header := None;
     _shape := [3]; _dtype := Dtype "int16"; _offset := 0;
     _slope := 1; _inter := 0; _mmap := MmapTrue;
     _keep_file_open := k; _lock := 0%nat; _opener := None |}.

Definition sample_world : world :=
  set_locks {[0%nat]} initial_world.

(** *** Threads sharing one proxy

    [get_unscaled] cut into the steps between which another thread may
    run: the test [if self._keep_file_open: if not hasattr(self,
    '_opener')], the assignment [self._opener = ImageOpener(...)], the
    [yield self._opener], the acquisition of [self._lock], the read, the
    release, and (for an opener made for this read only) the exit of its
    [with] block.  A thread at [AtAcquire] waits while another thread
    holds the lock. *)
Inductive pc_t : Type :=
| AtEnter
| AtCreate
| AtYield
| AtOpenFresh
| AtAcquire (fileobj : option nat) (mine : option nat)
| AtRead (fileobj : option nat) (mine : option nat)
| AtRelease (fileobj : option nat) (mine : option nat) (r : result (list Q))
| AtExit (h : nat) (r : result (list Q))
| Finished (r : result (list Q)).

Record shared : Type := Shared {
  sh_proxy : ArrayProxy;
  sh_world : world;
  sh_holder : option (nat * nat)   (* thread holding the RLock, and its depth *)
}.

Definition thread_step (ext : collaborators) (tid : nat) (pc : pc_t)
    (s : shared) : pc_t * shared :=
  let self := sh_proxy s in
  let w := sh_world s in
  match pc with
  | AtEnter =>
      if truthy (_keep_file_open self) then
        match _opener self with
        | None => (AtCreate, s)
        | Some _ => (AtYield, s)
        end
      else (AtOpenFresh, s)
  | AtCreate =>
      match ImageOpener ext (file_like self) (_keep_file_open self) w with
      | (Ok h, w1) =>
          (AtYield,
           {| sh_proxy := set_opener (Some (Some h)) self;
              sh_world := w1; sh_holder := sh_holder s |})
      | (Raise e, w1) =>
          (Finished (Raise e),
           {| sh_proxy := self; sh_world := w1; sh_holder := sh_holder s |})
      end
  | AtYield =>
      match _opener self with
      | Some o => (AtAcquire o None, s)
      | None => (Finished (Raise (AttributeError "_opener")), s)
      end
  | AtOpenFresh =>
      match ImageOpener ext (file_like self) (KBool false) w with
      | (Ok h, w1) =>
          (AtAcquire (Some h) (Some h),
           {| sh_proxy := self; sh_world := w1; sh_holder := sh_holder s |})
      | (Raise e, w1) =>
          (Finished (Raise e),
           {| sh_proxy := self; sh_world := w1; sh_holder := sh_holder s |})
      end
  | AtAcquire fileobj mine =>
      let enter depth :=
        (AtRead fileobj mine,
         {| sh_proxy := self; sh_world := log (EvAcquire (_lock self)) w;
            sh_holder := Some (tid, depth) |}) in
      match sh_holder s with
      | None => enter 1%nat
      | Some (t, d) => if Nat.eqb t tid then enter (S d) else (pc, s)
      end
  | AtRead fileobj mine =>
      (AtRelease fileobj mine
         (array_from_file ext (_shape self) (_dtype self) (deref fileobj w)
            (_offset self) order (_mmap self)),
       {| sh_proxy := self; sh_world := log (EvRead fileobj) w;
          sh_holder := sh_holder s |})
  | AtRelease fileobj mine r =>
      (match mine with Some h => AtExit h r | None => Finished r end,
       {| sh_proxy := self; sh_world := log (EvRelease (_lock self)) w;
          sh_holder := match sh_holder s with
                       | Some (t, S (S d)) => Some (t, S d)
                       | _ => None
                       end |})
  | AtExit h r =>
      (Finished r,
       {| sh_proxy := self; sh_world := close_if_mine h w;
          sh_holder := sh_holder s |})
  | Finished r => (pc, s)
  end.

(** One step of thread [tid] in a system of threads, and a whole
    schedule. *)
Definition sched_step (ext : collaborators) (st : list pc_t * shared)
    (tid : nat) : list pc_t * shared :=
  match fst st !! tid with
  | Some pc =>
      let '(pc', s') := thread_step ext tid pc (snd st) in
      (<[tid := pc']> (fst st), s')
  | None => st
  end.

Definition run_schedule (ext : collaborators) (sched : list nat)
    (st : list pc_t * shared) : list pc_t * shared :=
  fold_left (sched_step ext) sched st.

Definition start_threads (n : nat) (self : ArrayProxy) (w : world)
  : list pc_t * shared :=
  (replicate n AtEnter,
   {| sh_proxy := self; sh_world := w; sh_holder := None |}).



(** Reshape in the words of the specification: the element count of a
    shape (the exact product of its entries), the known dimensions of a
    target shape, and the target shape with its single placeholder [-1]
    replaced by the size divided by the product of the known
    dimensions. *)
Definition element_count (shape : list Z) : Z := fold_right Z.mul 1 shape.

Definition unknowns (shape : list Z) : nat :=
  length (filter (fun e => e = -1) shape).

Definition known_dims (shape : list Z) : list Z :=
  filter (fun e => e <> -1) shape.

Definition resolved_shape (size : Z) (shape : list Z) : list Z :=
  if (unknowns shape =? 1)%nat then
    map (fun e => if (e =? -1)%Z then size / element_count (known_dims shape)
                  else e)
      shape
  else shape.





Definition set_keep_file_open (k : kfo) (self : ArrayProxy) : ArrayProxy :=
  {| file_like := file_like self; _header := _header self;
     _shape := _shape self; _dtype := _dtype self; _offset := _offset self;
     _slope := _slope self; _inter := _inter self; _mmap := _mmap self;
     _keep_file_open := k; _lock := _lock self;
     _opener := _opener self |}.

(** The results of a sequence of reads on the same instance. *)
Fixpoint read_results (ext : collaborators) (ops : list read_op)
    (s : ArrayProxy * world) : list (result (list Q)) :=
  match ops with
  | [] => []
  | op :: ops =>
      fst (run_read ext op s) :: read_results ext ops (snd (run_read ext op s))
  end.

(** A method that does not look at the header objects: run on a world
    with other headers it returns the same, leaves the instance the same,
    and leaves the same world but for those headers. *)
Definition headers_blind {A} (c : PM A) : Prop :=
  forall self w hs,
    c (self, set_headers hs w)
    = (fst (c (self, w)),
       (fst (snd (c (self, w))), set_headers hs (snd (snd (c (self, w)))))).

(** A header object (object 0) reporting shape (4, 4, 2), dtype ['i2'],
    offset 0, slope 2 and an unset intercept, and the proxy [__init__]
    builds from it on the file ["img.nii"]. *)
Definition sample_header : header_data :=
  {| hd_shape := [4; 4; 2]; hd_dtype := DtStr "i2"; hd_offset := 0;
     hd_slope := Some 2%Q; hd_inter := None |}.

Definition sample_header_world : world :=
  set_headers {[0%nat := sample_header]} initial_world.

Definition sample_header_proxy : ArrayProxy :=
  {| file_like := filename "img.nii"; _header := Some 1%nat;
     _shape := [4; 4; 2]; _dtype := Dtype "int16"; _offset := 0;
     _slope := 2; _inter := 0; _mmap := MmapTrue;
     _keep_file_open := KBool false; _lock := 0%nat; _opener := None |}.

(** *** Whole lifetimes, locks, and the free functions *)

(** What a caller does with one instance over its lifetime: reads, and
    calls of [__del__]. *)
Inductive proxy_op : Type :=
| OpRead (op : read_op)
| OpDel.

Definition run_op (ext : collaborators) (o : proxy_op)
    (s : ArrayProxy * world) : ArrayProxy * world :=
  match o with
  | OpRead op => snd (run_read ext op s)
  | OpDel => snd (__del__ s)
  end.

Definition run_ops (ext : collaborators) (os : list proxy_op)
    (s : ArrayProxy * world) : ArrayProxy * world :=
  fold_left (fun s o => run_op ext o s) os s.

(** How often lock [l] is held after a trace, when it was held [depth]
    times before. *)
Fixpoint lock_depth (l : nat) (depth : nat) (t : list event) : nat :=
  match t with
  | [] => depth
  | EvAcquire l' :: t =>
      lock_depth l (if Nat.eqb l l' then S depth else depth) t
  | EvRelease l' :: t =>
      lock_depth l (if Nat.eqb l l' then Nat.pred depth else depth) t
  | _ :: t => lock_depth l depth t
  end.

(** Whether every call of [array_from_file] in a trace happens while lock
    [l] is held. *)
Fixpoint reads_under_lock (l : nat) (depth : nat) (t : list event) : bool :=
  match t with
  | [] => true
  | EvRead _ :: t => negb (Nat.eqb depth 0) && reads_under_lock l depth t
  | EvAcquire l' :: t =>
      reads_under_lock l (if Nat.eqb l l' then S depth else depth) t
  | EvRelease l' :: t =>
      reads_under_lock l (if Nat.eqb l l' then Nat.pred depth else depth) t
  | _ :: t => reads_under_lock l depth t
  end.





(** A proxy on a stream handed in already open. *)
Definition sample_stream_proxy : ArrayProxy :=
  {| file_like := fileobj_stream; _header := None;
     _shape := [3]; _dtype := Dtype "int16"; _offset := 0;
     _slope := 1; _inter := 0; _mmap := MmapTrue;
     _keep_file_open := KBool false; _lock := 0%nat; _opener := None |}.

(** A thread between the acquisition and the release of the lock, and
    what ties the lock's holder to such a thread in a system of threads. *)
Definition in_critical (pc : pc_t) : bool :=
  match pc with
  | AtRead _ _ | AtRelease _ _ _ => true
  | _ => false
  end.

Definition lock_inv (st : list pc_t * shared) : Prop :=
  (forall i pc, fst st !! i = Some pc -> in_critical pc = true ->
                sh_holder (snd st) = Some (i, 1%nat))
  /\ (forall t d, sh_holder (snd st) = Some (t, d) ->
                  d = 1%nat
                  /\ exists pc, fst st !! t = Some pc /\ in_critical pc = true).

(** ** The handle policy *)

Lemma requested_mode_valid default k :
  kfo_in_auto_true_false (requested_mode default k) = true ->
  requested_mode default k = KAuto \/
  exists b, requested_mode default k = KBool b.
Proof.
  destruct (requested_mode default k); simpl; intros H;
    try discriminate; eauto.
Qed.

(** C3.  For a recognised requested mode and a source that is either an
    open stream or a file name, [_should_keep_file_open] returns: [False]
    for an open stream; otherwise [False] when the mode is ['auto'] and
    indexed access is unavailable; otherwise the requested mode itself.
    The policy this value selects is the one the three rules of the
    specification give. *)
Theorem should_keep_file_open_rules
    (default : kfo) (have_indexed_gzip : bool)
    (f : file_like_t) (keep_file_open : kfo) :
  let requested := requested_mode default keep_file_open in
  kfo_in_auto_true_false requested = true ->
  (is_open_stream f = false -> is_Some (as_str f)) ->
  _should_keep_file_open default have_indexed_gzip f keep_file_open =
    Ok (if is_open_stream f then KBool false
        else if is_auto requested
                && negb (indexed_access_available have_indexed_gzip f)
        then KBool false
        else requested)
  /\ (policy_of <$> (match _should_keep_file_open default have_indexed_gzip
                             f keep_file_open with
                     | Ok k => Some k | Raise _ => None end)
      = Some (policy_rules have_indexed_gzip f requested)).
Proof.
  intros requested Hvalid Hname.
  assert (Heq : _should_keep_file_open default have_indexed_gzip f keep_file_open =
    Ok (if is_open_stream f then KBool false
        else if is_auto requested
                && negb (indexed_access_available have_indexed_gzip f)
        then KBool false
        else requested)).
  { unfold _should_keep_file_open.
    fold (requested_mode default keep_file_open). fold requested.
    rewrite Hvalid. simpl negb. cbv iota.
    unfold is_open_stream in *.
    destruct (has_read f && has_seek f) eqn:Hs; [reflexivity|].
    destruct (Hname eq_refl) as [s Hsome].
    unfold indexed_access_available. rewrite Hsome.
    destruct requested; simpl in Hvalid; try discriminate; simpl.
    - destruct have_indexed_gzip; simpl; [|reflexivity].
      destruct (endswith s ".gz"); reflexivity.
    - reflexivity. }
  split; [exact Heq|].
  rewrite Heq. simpl. f_equal.
  unfold policy_rules, policy_of.
  destruct (is_open_stream f); [reflexivity|].
  destruct (requested_mode_valid _ _ Hvalid) as [Ha | [b Hb]];
    fold requested in Ha || fold requested in Hb.
  - rewrite Ha. simpl.
    destruct (indexed_access_available have_indexed_gzip f); reflexivity.
  - rewrite Hb. simpl. destruct b; reflexivity.
Qed.

Lemma should_keep_file_open_rules_witness :
  _should_keep_file_open (KBool false) true (filename "img.nii.gz") KAuto
    = Ok KAuto
  /\ _should_keep_file_open (KBool true) true fileobj_stream KNone
    = Ok (KBool false)
  /\ _should_keep_file_open (KBool false) false (filename "img.nii.gz") KAuto
    = Ok (KBool false).
Proof.
  split; [|split].
  - apply (should_keep_file_open_rules (KBool false) true
             (filename "img.nii.gz") KAuto); [reflexivity|].
    intros _. simpl. eauto.
  - apply (should_keep_file_open_rules (KBool true) true
             fileobj_stream KNone); [reflexivity|].
    simpl. discriminate.
  - apply (should_keep_file_open_rules (KBool false) false
             (filename "img.nii.gz") KAuto); [reflexivity|].
    intros _. simpl. eauto.
Defined.

(** ** Teardown *)

Lemma closes_of_app h t1 t2 :
  closes_of h (t1 ++ t2) = (closes_of h t1 + closes_of h t2)%nat.
Proof. unfold closes_of. by rewrite filter_app, length_app. Qed.

Lemma opener_invocations_app t1 t2 :
  opener_invocations (t1 ++ t2)
  = (opener_invocations t1 + opener_invocations t2)%nat.
Proof. unfold opener_invocations. by rewrite filter_app, length_app. Qed.

Lemma close_if_mine_trace h w :
  trace (close_if_mine h w) =
  trace w ++ match openers w !! h with
             | Some o => if me_opened o then [EvClose h] else []
             | None => []
             end.
Proof.
  unfold close_if_mine. destruct (openers w !! h) as [o|].
  - destruct (me_opened o); simpl; [reflexivity | by rewrite app_nil_r].
  - by rewrite app_nil_r.
Qed.

Lemma close_if_mine_not_owned h w o :
  openers w !! h = Some o -> me_opened o = false -> close_if_mine h w = w.
Proof. intros Ho Hm. unfold close_if_mine. by rewrite Ho, Hm. Qed.

(** After one call of [__del__], further calls change nothing. *)
Lemma del_after_del self w :
  snd (__del__ (snd (__del__ (self, w)))) = snd (__del__ (self, w)).
Proof.
  destruct (__del__ (self, w)) as [r [self' w']] eqn:E. simpl.
  revert E. unfold __del__ at 1.
  destruct (_opener self) as [[h|]|] eqn:Hop.
  - unfold opener_closed.
    destruct (openers w !! h) as [o|] eqn:Ho; simpl.
    + destruct (closed o) eqn:Hc; simpl; intros [= <- <- <-].
      * unfold __del__. rewrite Hop. unfold opener_closed.
        by rewrite Ho; simpl; rewrite Hc.
      * reflexivity.
    + intros [= <- <- <-].
      unfold __del__. rewrite Hop. unfold opener_closed. by rewrite Ho.
  - intros [= <- <- <-]. unfold __del__. by rewrite Hop.
  - intros [= <- <- <-]. unfold __del__. by rewrite Hop.
Qed.

Lemma del_idempotent self w n :
  del_n n (snd (__del__ (self, w))) = snd (__del__ (self, w)).
Proof.
  induction n as [|n IH]; [reflexivity|].
  pose proof (del_after_del self w) as H.
  destruct (snd (__del__ (self, w))) as [self' w'] eqn:E.
  change (del_n n (snd (__del__ (self', w'))) = (self', w')).
  rewrite H. exact IH.
Qed.

(** C9.  [__del__] acts only on a cached opener that exists and is not
    closed; it then calls [close_if_mine] (and nothing else) on it and
    sets the cached reference to [None].  The file behind an opener that
    does not own it is never closed, one call closes a file at most once,
    and any number of further calls closes nothing. *)
Theorem del_closes_owned_opener_once (self : ArrayProxy) (w : world) :
  let s' := snd (__del__ (self, w)) in
  match _opener self with
  | Some (Some h) =>
      match openers w !! h with
      | Some o =>
          if closed o then s' = (self, w)
          else s' = (set_opener (Some None) self, close_if_mine h w)
               /\ trace (snd s') =
                  trace w ++ (if me_opened o then [EvClose h] else [])
               /\ (me_opened o = false -> snd s' = w)
      | None => s' = (self, w)
      end
  | _ => s' = (self, w)
  end
  /\ (forall h, closes_of h (trace (snd s')) <= closes_of h (trace w) + 1)%nat
  /\ (forall n, del_n n s' = s').
Proof.
  intros s'. split; [|split].
  - subst s'. unfold __del__.
    destruct (_opener self) as [[h|]|]; try reflexivity.
    unfold opener_closed.
    destruct (openers w !! h) as [o|] eqn:Ho; simpl; [|reflexivity].
    destruct (closed o); simpl; [reflexivity|].
    split; [reflexivity|]. split.
    + by rewrite close_if_mine_trace, Ho.
    + intros Hm. by apply close_if_mine_not_owned with o.
  - intros h. subst s'. unfold __del__.
    destruct (_opener self) as [[h'|]|]; simpl; try lia.
    unfold opener_closed.
    destruct (openers w !! h') as [o|] eqn:Ho; simpl; [|lia].
    destruct (closed o); simpl; [lia|].
    rewrite close_if_mine_trace, Ho, closes_of_app.
    destruct (me_opened o); unfold closes_of; simpl; [|lia].
    destruct (is_close_of h (EvClose h')) eqn:E;
      rewrite ?filter_cons_True, ?filter_cons_False by (rewrite E; done);
      simpl; lia.
  - intros n. apply del_idempotent.
Qed.

Lemma del_closes_owned_opener_once_witness :
  let s1 := snd (run_read sample_ext ReadUnscaled
                   (sample_proxy (KBool true), sample_world)) in
  let s2 := snd (__del__ s1) in
  closes_of 0 (trace (snd s2)) = 1%nat
  /\ _opener (fst s2) = Some None
  /\ del_n 3 s2 = s2.
Proof.
  intros s1 s2. split; [reflexivity|]. split; [reflexivity|].
  apply (proj2 (proj2 (del_closes_owned_opener_once (fst s1) (snd s1)))).
Defined.

(** ** The scoped handle provider *)

Lemma ImageOpener_ok ext src k w :
  can_open ext src = true ->
  ImageOpener ext src k w = (Ok (fresh (dom (openers w))), opened src k w).
Proof. intros H. unfold ImageOpener. simpl. by rewrite H. Qed.

Lemma ImageOpener_fail ext src k w :
  can_open ext src = false ->
  ImageOpener ext src k w
  = (Raise (IOError "cannot open"), log (EvOpen src k) w).
Proof. intros H. unfold ImageOpener. simpl. by rewrite H. Qed.

Lemma logs_log3 a b c w : log c (log b (log a w)) = logs [a; b; c] w.
Proof. unfold log, logs. simpl. by rewrite <- !app_assoc. Qed.

Lemma logs_log1 a w : log a w = logs [a] w.
Proof. reflexivity. Qed.

Lemma logs_nil w : logs [] w = w.
Proof. destruct w. unfold logs. simpl. by rewrite app_nil_r. Qed.

Lemma logs_logs t1 t2 w : logs t2 (logs t1 w) = logs (t1 ++ t2) w.
Proof. unfold logs. simpl. by rewrite app_assoc. Qed.

(** Unfold a read and case on what the external reader returns. *)
Ltac unfold_read :=
  unfold run_read, __array__, __getitem__, get_unscaled, _get_fileobj,
    with_lock, bind, emit.

Ltac case_reader :=
  simpl;
  repeat match goal with
         | |- context [array_from_file ?e ?a ?b ?c ?d ?f ?g] =>
             destruct (array_from_file e a b c d f g); simpl
         | |- context [fileslice ?e ?a ?b ?c ?d ?f ?g] =>
             destruct (fileslice e a b c d f g); simpl
         end;
  rewrite ?logs_log3, ?logs_log1; try reflexivity.

(** A read with the persistent opener already cached. *)
Lemma run_read_cached ext op self w o :
  truthy (_keep_file_open self) = true ->
  _opener self = Some o ->
  snd (run_read ext op (self, w))
  = (self, logs (body_events op (_lock self) o) w).
Proof.
  intros Hk Ho. destruct op; unfold_read; rewrite Hk, Ho; case_reader.
Qed.

(** The first read of a keep-open proxy: the opener is created and cached. *)
Lemma run_read_first ext op self w :
  truthy (_keep_file_open self) = true ->
  _opener self = None ->
  can_open ext (file_like self) = true ->
  snd (run_read ext op (self, w))
  = (set_opener (Some (Some (fresh (dom (openers w))))) self,
     logs (body_events op (_lock self) (Some (fresh (dom (openers w)))))
       (opened (file_like self) (_keep_file_open self) w)).
Proof.
  intros Hk Ho Hc. destruct op; unfold_read;
    rewrite Hk, Ho, ImageOpener_ok by done; case_reader.
Qed.

(** A failed first creation leaves the proxy as it was. *)
Lemma run_read_first_fail ext op self w :
  truthy (_keep_file_open self) = true ->
  _opener self = None ->
  can_open ext (file_like self) = false ->
  run_read ext op (self, w)
  = (Raise (IOError "cannot open"),
     (self, log (EvOpen (file_like self) (_keep_file_open self)) w)).
Proof.
  intros Hk Ho Hc. destruct op; unfold_read;
    by rewrite Hk, Ho, ImageOpener_fail.
Qed.

(** A read of a proxy that opens a new handle every time. *)
Lemma run_read_fresh ext op self w :
  truthy (_keep_file_open self) = false ->
  can_open ext (file_like self) = true ->
  snd (run_read ext op (self, w))
  = (self,
     close_if_mine (fresh (dom (openers w)))
       (logs (body_events op (_lock self) (Some (fresh (dom (openers w)))))
          (opened (file_like self) (KBool false) w))).
Proof.
  intros Hk Hc. destruct op; unfold_read;
    rewrite Hk, ImageOpener_ok by done; case_reader.
Qed.

Lemma body_events_no_open op l o :
  opener_invocations (body_events op l o) = 0%nat.
Proof. by destruct op. Qed.

Lemma body_events_no_close h op l o :
  closes_of h (body_events op l o) = 0%nat.
Proof. by destruct op. Qed.

Lemma body_events_fileobj op l o :
  fileobjs_used (body_events op l o) = [o].
Proof. by destruct op. Qed.

Lemma fileobjs_used_app t1 t2 :
  fileobjs_used (t1 ++ t2) = fileobjs_used t1 ++ fileobjs_used t2.
Proof. unfold fileobjs_used. apply omap_app. Qed.

(** Reads after the first one: the cached opener is handed out again and
    nothing is opened or closed. *)
Lemma run_reads_cached ext ops self w o :
  truthy (_keep_file_open self) = true ->
  _opener self = Some o ->
  exists t,
    run_reads ext ops (self, w) = (self, logs t w)
    /\ opener_invocations t = 0%nat
    /\ (forall h, closes_of h t = 0%nat)
    /\ fileobjs_used t = replicate (length ops) o.
Proof.
  intros Hk Ho. revert w. induction ops as [|op ops IH]; intros w.
  - exists []. simpl. by rewrite logs_nil.
  - simpl. rewrite (run_read_cached ext op self w o) by done.
    destruct (IH (logs (body_events op (_lock self) o) w))
      as (t & Hrun & Hopen & Hclose & Hobj).
    exists (body_events op (_lock self) o ++ t).
    rewrite Hrun, logs_logs. split; [reflexivity|].
    rewrite opener_invocations_app, body_events_no_open, Hopen.
    split; [reflexivity|]. split.
    + intros h. by rewrite closes_of_app, body_events_no_close, Hclose.
    + by rewrite fileobjs_used_app, body_events_fileobj, Hobj.
Qed.

Lemma fresh_opener_unused (w : world) :
  openers w !! fresh (dom (openers w)) = None.
Proof. apply not_elem_of_dom, is_fresh. Qed.

(** *** The monad *)

Lemma bind_ok_inv {S A B} (c : St S A) (k : A -> St S B) s b s' :
  bind c k s = (Ok b, s') ->
  exists a s1, c s = (Ok a, s1) /\ k a s1 = (Ok b, s').
Proof.
  unfold bind. destruct (c s) as [[a|e] s1]; [eauto | discriminate].
Qed.

Lemma quiet_ret {A} (a : A) : quiet (ret a).
Proof. by intros w. Qed.

Lemma quiet_raise {A} e : quiet (@raise world A e).
Proof. by intros w. Qed.

Lemma quiet_lift {A} (r : result A) : quiet (lift r).
Proof. by intros w. Qed.

Lemma quiet_bind {A B} (c : M A) (k : A -> M B) :
  quiet c -> (forall a, quiet (k a)) -> quiet (bind c k).
Proof.
  intros Hc Hk w. unfold bind.
  destruct (Hc w) as (Ht & Ho & Hd).
  destruct (c w) as [[a|e] w1]; simpl in *; [|done].
  destruct (Hk a w1) as (Ht' & Ho' & Hd'). by rewrite Ht', Ho', Hd'.
Qed.

Lemma quiet_RLock : quiet RLock.
Proof. by intros w. Qed.

Lemma quiet_header_get ref : quiet (header_get ref).
Proof. intros w. unfold header_get. by destruct (headers w !! ref). Qed.

Lemma quiet_header_copy ref : quiet (header_copy ref).
Proof.
  apply quiet_bind; [apply quiet_header_get|]. by intros hd w.
Qed.

Lemma quiet_resolve_par spec : quiet (resolve_par spec).
Proof.
  destruct spec as [items|ref|]; simpl.
  - destruct (_ && _); [apply quiet_ret | apply quiet_raise].
  - apply quiet_bind; [apply quiet_header_get|]. intros hd.
    apply quiet_bind; [apply quiet_header_copy|]. intros c. apply quiet_ret.
  - apply quiet_raise.
Qed.

Lemma quiet_resolve_spec ext spec : quiet (resolve_spec ext spec).
Proof.
  unfold resolve_spec.
  apply quiet_bind; [apply quiet_resolve_par|]. intros ph.
  apply quiet_bind; [apply quiet_lift|]. intros [[[[sh d] off] sl] it].
  apply quiet_bind; [apply quiet_lift|]. intros dt. apply quiet_ret.
Qed.

(** The constructor touches neither the openers nor the trace. *)
Lemma quiet_init ext fl spec mmap k : quiet (__init__ ext fl spec mmap k).
Proof.
  unfold __init__. destruct (negb _); [apply quiet_raise|].
  apply quiet_bind; [apply quiet_resolve_spec|]. intros a.
  apply quiet_bind; [by intros w|]. intros kk.
  apply quiet_bind; [apply quiet_RLock|]. intros l. apply quiet_ret.
Qed.

(** What a successful construction went through. *)
Lemma init_ok_inv ext fl spec mmap k w p w' :
  __init__ ext fl spec mmap k w = (Ok p, w') ->
  mmap_in_allowed mmap = true
  /\ exists a w1 kk,
      resolve_spec ext spec w = (Ok a, w1)
      /\ _should_keep_file_open (keep_file_open_default w1)
           (HAVE_INDEXED_GZIP ext) fl k = Ok kk
      /\ w' = set_locks ({[fresh (locks w1)]} ∪ locks w1) w1
      /\ p = {| file_like := fl; _header := as_header a;
                _shape := as_shape a; _dtype := as_dtype a;
                _offset := as_offset a; _slope := as_slope a;
                _inter := as_inter a; _mmap := mmap;
                _keep_file_open := kk; _lock := fresh (locks w1);
                _opener := None |}.
Proof.
  unfold __init__. destruct (mmap_in_allowed mmap); simpl; [|discriminate].
  intros H. split; [done|].
  apply bind_ok_inv in H as (a & w1 & Ha & H).
  apply bind_ok_inv in H as (kk & w2 & Hk & H).
  unfold lift in Hk. injection Hk as Hk <-.
  apply bind_ok_inv in H as (l & w3 & Hl & H).
  unfold RLock in Hl. injection Hl as <- <-.
  unfold ret in H. injection H as <- <-.
  by exists a, w1, kk.
Qed.

Lemma trace_logs t w : trace (logs t w) = trace w ++ t.
Proof. reflexivity. Qed.

Lemma trace_opened src k w : trace (opened src k w) = trace w ++ [EvOpen src k].
Proof. reflexivity. Qed.

Lemma openers_logs t w : openers (logs t w) = openers w.
Proof. reflexivity. Qed.

(** Under the open-fresh policy every read calls [ImageOpener] once. *)
Lemma run_reads_fresh_count ext ops self w :
  truthy (_keep_file_open self) = false ->
  can_open ext (file_like self) = true ->
  opener_invocations (trace (snd (run_reads ext ops (self, w))))
  = (opener_invocations (trace w) + length ops)%nat.
Proof.
  intros Hk Hc. revert w. induction ops as [|op ops IH]; intros w; simpl.
  - lia.
  - rewrite run_read_fresh by done. rewrite IH.
    rewrite close_if_mine_trace, trace_logs, trace_opened.
    rewrite !opener_invocations_app, body_events_no_open.
    assert (opener_invocations
              match openers (logs (body_events op (_lock self)
                                     (Some (fresh (dom (openers w)))))
                               (opened (file_like self) (KBool false) w))
                    !! fresh (dom (openers w)) with
              | Some o => if me_opened o
                          then [EvClose (fresh (dom (openers w)))] else []
              | None => []
              end = 0%nat) as ->.
    { destruct (_ !! _) as [o|]; [destruct (me_opened o)|]; reflexivity. }
    unfold opener_invocations at 2. simpl. lia.
Qed.

Lemma opened_lookup src k w :
  openers (opened src k w) !! fresh (dom (openers w))
  = Some {| op_source := src; op_keep_open := k;
            me_opened := negb (has_read src && has_seek src);
            closed := false |}.
Proof. unfold opened. simpl. apply lookup_insert_eq. Qed.

(** C4, as stated, fails.  A proxy on a stream that the caller hands in
    already open reads under the open-fresh policy, whatever
    [keep_file_open] was asked for.  A read makes a new opener around the
    stream, and when the [with] block ends that opener, which does not own
    the stream, is not closed: no close is recorded, and the opener is
    still open after the read. *)
Lemma fresh_opener_on_stream_stays_open_counterexample :
  let h := fresh (dom (openers sample_world)) in
  let s' := snd (run_read sample_ext ReadArray
                   (sample_stream_proxy, sample_world)) in
  __init__ sample_ext fileobj_stream
    (SpecTuple [VShape [3]; VDtype (DtStr "i2")]) MmapTrue (KBool true)
    initial_world
  = (Ok sample_stream_proxy, sample_world)
  /\ policy_of (_keep_file_open sample_stream_proxy) = AlwaysOpenFresh
  /\ trace (snd s')
     = trace sample_world
       ++ [EvOpen fileobj_stream (KBool false);
           EvAcquire 0%nat; EvRead (Some h); EvRelease 0%nat]
  /\ closes_of h (trace (snd s')) = 0%nat
  /\ closed <$> openers (snd s') !! h = Some false.
Proof. vm_compute. repeat split. Qed.

(** C4, amended.  Constructing a proxy opens nothing and leaves [_opener]
    unassigned.  Under the keep-open policy, with a source that can be
    opened, any non-empty sequence of reads calls [ImageOpener] exactly
    once, hands the same new opener to every read, caches it, and closes
    nothing.  Under the open-fresh policy each read calls [ImageOpener]
    once on a new opener and leaves the [with] block through the opener's
    exit on every path, after which an opener that owns its file is
    closed; nothing is cached, and [n] reads make [n] calls. *)
Theorem handle_created_lazily_and_reused (ext : collaborators) :
  (forall fl spec mmap k w,
     trace (snd (__init__ ext fl spec mmap k w)) = trace w
     /\ openers (snd (__init__ ext fl spec mmap k w)) = openers w
     /\ forall p, fst (__init__ ext fl spec mmap k w) = Ok p ->
                  _opener p = None)
  /\ (forall self w op ops,
        truthy (_keep_file_open self) = true ->
        _opener self = None ->
        can_open ext (file_like self) = true ->
        let h := fresh (dom (openers w)) in
        let s' := run_reads ext (op :: ops) (self, w) in
        exists t,
          trace (snd s') = trace w ++ t
          /\ opener_invocations t = 1%nat
          /\ fileobjs_used t = replicate (S (length ops)) (Some h)
          /\ (forall h', closes_of h' t = 0%nat)
          /\ _opener (fst s') = Some (Some h)
          /\ openers w !! h = None)
  /\ (forall self w op,
        truthy (_keep_file_open self) = false ->
        can_open ext (file_like self) = true ->
        let h := fresh (dom (openers w)) in
        let owns := negb (is_open_stream (file_like self)) in
        let s' := snd (run_read ext op (self, w)) in
        fst s' = self
        /\ trace (snd s') =
           trace w ++ [EvOpen (file_like self) (KBool false)]
                   ++ body_events op (_lock self) (Some h)
                   ++ (if owns then [EvClose h] else [])
        /\ openers w !! h = None
        /\ closed <$> openers (snd s') !! h = Some owns)
  /\ (forall self w ops,
        truthy (_keep_file_open self) = false ->
        can_open ext (file_like self) = true ->
        opener_invocations (trace (snd (run_reads ext ops (self, w))))
        = (opener_invocations (trace w) + length ops)%nat).
Proof.
  split; [|split; [|split]].
  - intros fl spec mmap k w.
    destruct (quiet_init ext fl spec mmap k w) as (Ht & Ho & _).
    split; [done|]. split; [done|].
    intros p Hp. destruct (__init__ ext fl spec mmap k w) as [r w'] eqn:E.
    simpl in Hp. subst r. by apply init_ok_inv in E as (_ & a & w1 & kk & _ & _ & _ & ->).
  - intros self w op ops Hk Ho Hc h s'. subst s'. simpl.
    rewrite run_read_first by done. fold h.
    destruct (run_reads_cached ext ops (set_opener (Some (Some h)) self)
                (logs (body_events op (_lock self) (Some h))
                   (opened (file_like self) (_keep_file_open self) w))
                (Some h)) as (t & Hrun & Hopen & Hclose & Hobj); [done..|].
    exists ([EvOpen (file_like self) (_keep_file_open self)]
            ++ body_events op (_lock self) (Some h) ++ t).
    rewrite Hrun. simpl fst. simpl snd.
    rewrite !trace_logs, trace_opened, <- !app_assoc.
    split; [done|]. split.
    { rewrite !opener_invocations_app, body_events_no_open, Hopen. done. }
    split.
    { rewrite !fileobjs_used_app, body_events_fileobj, Hobj. done. }
    split.
    { intros h'. rewrite !closes_of_app, body_events_no_close, Hclose. done. }
    split; [done|]. apply fresh_opener_unused.
  - intros self w op Hk Hc h owns s'. subst s'.
    rewrite run_read_fresh by done. fold h. simpl fst. simpl snd.
    split; [done|].
    rewrite close_if_mine_trace, trace_logs, trace_opened, openers_logs.
    unfold close_if_mine. rewrite openers_logs.
    unfold h. rewrite opened_lookup. simpl me_opened.
    fold (is_open_stream (file_like self)). fold owns. fold h.
    split; [by rewrite <- !app_assoc|].
    split; [apply fresh_opener_unused|].
    destruct owns; simpl.
    + by rewrite lookup_insert_eq.
    + unfold h. by rewrite lookup_insert_eq.
  - intros self w ops. apply run_reads_fresh_count.
Qed.

Lemma sample_proxy_constructed :
  __init__ sample_ext (filename "img.nii")
    (SpecTuple [VShape [3]; VDtype (DtStr "i2")]) MmapTrue (KBool true)
    initial_world
  = (Ok (sample_proxy (KBool true)), sample_world).
Proof.
  unfold __init__, resolve_spec, bind. simpl.
  unfold sample_proxy, sample_world, set_locks. simpl.
  repeat f_equal.
Qed.

Lemma handle_created_lazily_and_reused_witness :
  (exists t,
     trace (snd (run_reads sample_ext (ReadArray :: replicate 9 ReadArray)
                   (sample_proxy (KBool true), sample_world)))
     = trace sample_world ++ t
     /\ opener_invocations t = 1%nat
     /\ fileobjs_used t
        = replicate 10 (Some (fresh (dom (openers sample_world))))
     /\ (forall h', closes_of h' t = 0%nat)
     /\ _opener (fst (run_reads sample_ext (ReadArray :: replicate 9 ReadArray)
                        (sample_proxy (KBool true), sample_world)))
        = Some (Some (fresh (dom (openers sample_world))))
     /\ openers sample_world !! fresh (dom (openers sample_world)) = None)
  /\ opener_invocations
       (trace (snd (run_reads sample_ext (replicate 10 ReadArray)
                      (sample_proxy (KBool false), sample_world))))
     = (opener_invocations (trace sample_world) + 10)%nat.
Proof.
  split.
  - apply (proj1 (proj2 (handle_created_lazily_and_reused sample_ext))
             (sample_proxy (KBool true)) sample_world ReadArray
             (replicate 9 ReadArray)); reflexivity.
  - apply (proj2 (proj2 (proj2 (handle_created_lazily_and_reused sample_ext)))
             (sample_proxy (KBool false)) sample_world
             (replicate 10 ReadArray)); reflexivity.
Defined.

(** ** Pickling *)

Lemma instance_of_dict_dict self : instance_of_dict (__dict__ self) = Some self.
Proof.
  destruct self as [fl hdr sh dt off sl it mm k l opn].
  destruct hdr as [r|], opn as [o|]; reflexivity.
Qed.

Lemma getstate_lookup_lock self : __getstate__ self !! "_lock" = None.
Proof. apply lookup_delete_eq. Qed.

Lemma getstate_lookup_other self k :
  k <> "_lock" -> __getstate__ self !! k = __dict__ self !! k.
Proof. intros Hk. unfold __getstate__. by rewrite lookup_delete_ne. Qed.

Lemma dict_lookup_opener self :
  __dict__ self !! "_opener" = AOpener <$> _opener self.
Proof.
  destruct self as [fl hdr sh dt off sl it mm k l opn].
  destruct hdr as [r|], opn as [o|]; reflexivity.
Qed.

Lemma relock_dict self l :
  <["_lock" := ALock l]> (__getstate__ self ∪ ∅) = __dict__ (set_lock l self).
Proof.
  destruct self as [fl hdr sh dt off sl it mm k l0 opn].
  destruct hdr as [r|], opn as [o|]; reflexivity.
Qed.

Lemma unpickle_getstate self w :
  unpickle (__getstate__ self) w
  = (Ok (__dict__ (set_lock (fresh (locks w)) self)),
     set_locks ({[fresh (locks w)]} ∪ locks w) w).
Proof.
  unfold unpickle, __setstate__, bind, RLock, ret. by rewrite relock_dict.
Qed.

(** C1, as stated, fails.  A keep-open proxy that has been read once has
    its opener (object 0) in the state [__getstate__] returns; the proxy
    restored from that state holds the same opener, and its first read
    calls [ImageOpener] not at all and reads through opener 0. *)
Lemma getstate_keeps_opener_counterexample :
  let s1 := snd (run_read sample_ext ReadUnscaled
                   (sample_proxy (KBool true), sample_world)) in
  let state := __getstate__ (fst s1) in
  let restored := set_lock 1%nat (fst s1) in
  let w2 := snd (unpickle state (snd s1)) in
  state !! "_opener" = Some (AOpener (Some 0%nat))
  /\ openers (snd s1) !! 0%nat <> None
  /\ (instance_of_dict <$> (match fst (unpickle state (snd s1)) with
                            | Ok d => Some d | Raise _ => None end))
     = Some (Some restored)
  /\ _opener restored = Some (Some 0%nat)
  /\ trace (snd (snd (run_read sample_ext ReadUnscaled (restored, w2))))
     = trace w2 ++ [EvAcquire 1; EvRead (Some 0%nat); EvRelease 1].
Proof.
  vm_compute. repeat split; try reflexivity. discriminate.
Qed.

(** C1, amended.  [__getstate__] returns the instance dictionary without
    ["_lock"]: the lock is absent and every other attribute, an assigned
    [_opener] included, is kept.  Unpickling that state yields the same
    proxy with a new lock and touches neither openers nor trace.  When
    the proxy had no opener assigned, the restored keep-open proxy's first
    read calls [ImageOpener] exactly once, on a new opener, and caches
    it. *)
Theorem getstate_excludes_lock_only (ext : collaborators)
    (self : ArrayProxy) (w : world) :
  let l := fresh (locks w) in
  let restored := set_lock l self in
  let w' := snd (unpickle (__getstate__ self) w) in
  __getstate__ self !! "_lock" = None
  /\ (forall k, k <> "_lock" -> __getstate__ self !! k = __dict__ self !! k)
  /\ __getstate__ self !! "_opener" = AOpener <$> _opener self
  /\ fst (unpickle (__getstate__ self) w) = Ok (__dict__ restored)
  /\ instance_of_dict (__dict__ restored) = Some restored
  /\ (l ∉ locks w)
  /\ trace w' = trace w /\ openers w' = openers w
  /\ (truthy (_keep_file_open self) = true ->
      _opener self = None ->
      can_open ext (file_like self) = true ->
      forall op,
        let h := fresh (dom (openers w)) in
        let s' := snd (run_read ext op (restored, w')) in
        trace (snd s') =
          trace w ++ [EvOpen (file_like self) (_keep_file_open self)]
                  ++ body_events op l (Some h)
        /\ openers w !! h = None
        /\ _opener (fst s') = Some (Some h)).
Proof.
  intros l restored w'.
  split; [apply getstate_lookup_lock|].
  split; [apply getstate_lookup_other|].
  split; [by rewrite getstate_lookup_other, dict_lookup_opener|].
  subst w'. rewrite unpickle_getstate. simpl.
  split; [done|]. split; [apply instance_of_dict_dict|].
  split; [apply is_fresh|]. split; [done|]. split; [done|].
  intros Hk Ho Hc op. cbv zeta.
  rewrite run_read_first by done. simpl.
  split; [by rewrite <- app_assoc|]. split; [apply fresh_opener_unused|done].
Qed.

Lemma getstate_excludes_lock_only_witness :
  let self := sample_proxy (KBool true) in
  let w := sample_world in
  let l := fresh (locks w) in
  let h := fresh (dom (openers w)) in
  let s' := snd (run_read sample_ext ReadArray
                   (set_lock l self, snd (unpickle (__getstate__ self) w))) in
  trace (snd s') =
    trace w ++ [EvOpen (file_like self) (_keep_file_open self)]
            ++ body_events ReadArray l (Some h)
  /\ openers w !! h = None
  /\ _opener (fst s') = Some (Some h).
Proof.
  intros self w l h.
  apply (proj2 (proj2 (proj2 (proj2 (proj2 (proj2 (proj2 (proj2
           (getstate_excludes_lock_only sample_ext self w)))))))));
    reflexivity.
Defined.

(** ** Creation of the persistent handle and the lock *)

(** A thread running alone. *)
Lemma sched_step_single ext pc s :
  sched_step ext ([pc], s) 0%nat
  = ([fst (thread_step ext 0 pc s)], snd (thread_step ext 0 pc s)).
Proof.
  unfold sched_step. cbn [fst snd lookup list_lookup].
  by destruct (thread_step ext 0 pc s).
Qed.

Ltac step_single :=
  rewrite sched_step_single;
  cbn [thread_step fst snd sh_proxy sh_world sh_holder Nat.eqb].

(** The step model agrees with [get_unscaled]: a thread running alone
    ends with the result and in the state that [get_unscaled] gives. *)
Lemma single_thread_is_get_unscaled ext self w :
  run_schedule ext (replicate 6 0%nat) (start_threads 1 self w)
  = let '(r, (self', w')) := get_unscaled ext (self, w) in
    ([Finished r],
     {| sh_proxy := self'; sh_world := w'; sh_holder := None |}).
Proof.
  unfold get_unscaled, _get_fileobj, with_lock, bind, emit.
  unfold run_schedule, start_threads. cbn [replicate fold_left].
  step_single.
  destruct (truthy (_keep_file_open self)) eqn:Hk.
  - destruct (_opener self) as [o|] eqn:Ho; cbn [fst snd].
    + step_single. rewrite Ho. cbn [fst snd].
      do 4 step_single. reflexivity.
    + step_single. unfold ImageOpener.
      destruct (can_open ext (file_like self)); cbn [fst snd].
      * step_single. cbn [_opener set_opener fst snd].
        do 3 step_single. reflexivity.
      * do 4 step_single. reflexivity.
  - cbn [fst snd]. step_single. unfold ImageOpener.
    destruct (can_open ext (file_like self)); cbn [fst snd].
    + do 4 step_single. reflexivity.
    + do 4 step_single. reflexivity.
Qed.

(** Reads of a keep-open proxy whose source cannot be opened: every read
    raises and nothing is cached or created. *)
Lemma run_reads_first_fail ext ops self w :
  truthy (_keep_file_open self) = true ->
  _opener self = None ->
  can_open ext (file_like self) = false ->
  fst (run_reads ext ops (self, w)) = self
  /\ openers (snd (run_reads ext ops (self, w))) = openers w.
Proof.
  intros Hk Ho Hc. revert w. induction ops as [|op ops IH]; intros w; simpl.
  - done.
  - rewrite run_read_first_fail by done. simpl.
    destruct (IH (log (EvOpen (file_like self) (_keep_file_open self)) w))
      as [-> ->]. done.
Qed.

(** C2, as stated, fails.  In [get_unscaled] on a keep-open proxy the
    call of [ImageOpener] comes before the lock is acquired, so it is not
    made under the lock; and two threads that both pass the test
    [not hasattr(self, '_opener')] before either assigns create two
    openers, the first of which is overwritten in [self._opener]. *)
Lemma opener_created_outside_lock_counterexample :
  let self := sample_proxy (KBool true) in
  let w1 := snd (snd (get_unscaled sample_ext (self, sample_world))) in
  let st := run_schedule sample_ext [0; 1; 0; 1; 0; 0; 0; 0; 1; 1; 1; 1]%nat
              (start_threads 2 self sample_world) in
  trace w1 = [EvOpen (filename "img.nii") (KBool true);
              EvAcquire 0; EvRead (Some 0%nat); EvRelease 0]
  /\ opens_under_lock 0 0 (trace w1) = false
  /\ fst st = [Finished (Ok [0%Q; 1%Q; 2%Q]); Finished (Ok [0%Q; 1%Q; 2%Q])]
  /\ opener_invocations (trace (sh_world (snd st))) = 2%nat
  /\ size (openers (sh_world (snd st))) = 2%nat
  /\ _opener (sh_proxy (snd st)) = Some (Some 1%nat).
Proof.
  vm_compute. repeat split; reflexivity.
Qed.

(** C2, amended.  On a keep-open proxy without a cached opener,
    [get_unscaled] calls [ImageOpener] first and acquires the lock
    afterwards, holding it only around the read; [__getitem__] does not
    acquire it and hands it to [fileslice].  If the creation fails the
    read raises and the proxy is left without a cached opener.  In a
    sequential run of reads at most one opener is created. *)
Theorem opener_created_before_lock (ext : collaborators)
    (self : ArrayProxy) (w : world) :
  truthy (_keep_file_open self) = true ->
  _opener self = None ->
  let l := _lock self in
  let h := fresh (dom (openers w)) in
  let opening := EvOpen (file_like self) (_keep_file_open self) in
  (can_open ext (file_like self) = true ->
     trace (snd (snd (get_unscaled ext (self, w))))
       = trace w ++ [opening; EvAcquire l; EvRead (Some h); EvRelease l]
     /\ (forall slicer,
           trace (snd (snd (__getitem__ ext slicer (self, w))))
           = trace w ++ [opening; EvSlice (Some h) l])
     /\ opens_under_lock l 0 [opening; EvAcquire l; EvRead (Some h); EvRelease l]
        = false)
  /\ (can_open ext (file_like self) = false ->
      forall op,
        run_read ext op (self, w)
        = (Raise (IOError "cannot open"), (self, log opening w)))
  /\ (forall ops,
        dom (openers (snd (run_reads ext ops (self, w))))
        ⊆ dom (openers w) ∪ {[h]}).
Proof.
  intros Hk Ho l h opening. split; [|split].
  - intros Hc. split; [|split].
    + change (get_unscaled ext (self, w))
        with (run_read ext ReadUnscaled (self, w)).
      rewrite run_read_first by done.
      simpl. by rewrite <- app_assoc.
    + intros slicer.
      change (__getitem__ ext slicer (self, w))
        with (run_read ext (ReadItem slicer) (self, w)).
      rewrite run_read_first by done.
      simpl. by rewrite <- app_assoc.
    + reflexivity.
  - intros Hc op. by apply run_read_first_fail.
  - intros ops. destruct (can_open ext (file_like self)) eqn:Hc.
    + destruct ops as [|op ops]; simpl.
      * set_solver.
      * rewrite run_read_first by done.
        destruct (run_reads_cached ext ops (set_opener (Some (Some h)) self)
                    (logs (body_events op (_lock self) (Some h))
                       (opened (file_like self) (_keep_file_open self) w))
                    (Some h)) as (t & Hrun & Hrest); [done..|].
        fold h. rewrite Hrun. simpl. rewrite dom_insert_L.
        intros x Hx. apply elem_of_union in Hx as [Hx|Hx];
          apply elem_of_union; [by right | by left].
    + destruct (run_reads_first_fail ext ops self w) as [_ Hop]; [done..|].
      rewrite Hop. set_solver.
Qed.

Lemma opener_created_before_lock_witness :
  let self := sample_proxy (KBool true) in
  let w := sample_world in
  trace (snd (snd (get_unscaled sample_ext (self, w))))
  = trace w ++ [EvOpen (file_like self) (_keep_file_open self);
                EvAcquire (_lock self);
                EvRead (Some (fresh (dom (openers w))));
                EvRelease (_lock self)].
Proof.
  intros self w.
  apply (proj1 (opener_created_before_lock sample_ext self w
                  eq_refl eq_refl)).
  reflexivity.
Defined.

(** ** Reads and the instance *)

Lemma run_read_fresh_fail ext op self w :
  truthy (_keep_file_open self) = false ->
  can_open ext (file_like self) = false ->
  run_read ext op (self, w)
  = (Raise (IOError "cannot open"),
     (self, log (EvOpen (file_like self) (KBool false)) w)).
Proof.
  intros Hk Hc. destruct op; unfold_read;
    by rewrite Hk, ImageOpener_fail.
Qed.

Lemma set_opener_same self : set_opener (_opener self) self = self.
Proof. by destruct self. Qed.

(** A read changes nothing of the instance but, possibly, [_opener]. *)
Lemma run_read_instance ext op self w :
  exists o, fst (snd (run_read ext op (self, w))) = set_opener o self.
Proof.
  destruct (truthy (_keep_file_open self)) eqn:Hk.
  - destruct (_opener self) as [o|] eqn:Ho.
    + exists (Some o). rewrite (run_read_cached ext op self w o) by done.
      simpl. by rewrite <- Ho, set_opener_same.
    + destruct (can_open ext (file_like self)) eqn:Hc.
      * eexists. rewrite run_read_first by done. reflexivity.
      * exists None. rewrite run_read_first_fail by done.
        simpl. by rewrite <- Ho, set_opener_same.
  - exists (_opener self). rewrite set_opener_same.
    destruct (can_open ext (file_like self)) eqn:Hc.
    + by rewrite run_read_fresh.
    + by rewrite run_read_fresh_fail.
Qed.




(** ** The spec resolver *)

Lemma np_dtype_raises ext d e :
  np_dtype ext d = Raise e -> e = TypeError "data type not understood".
Proof.
  destruct d as [d|s]; simpl; [discriminate|].
  destruct (dtype_of_str ext s); [discriminate|]. by intros [= <-].
Qed.

Lemma resolve_spec_tuple ext items w :
  (2 <=? length items)%nat && (length items <=? 5)%nat = true ->
  resolve_spec ext (SpecTuple items) w
  = match unpack (items ++ drop (length items - 2) optional) with
    | Ok (sh, d, off, sl, it) =>
        match np_dtype ext d with
        | Ok dt => (Ok {| as_header := None; as_shape := sh; as_dtype := dt;
                          as_offset := off; as_slope := sl; as_inter := it |}, w)
        | Raise e => (Raise e, w)
        end
    | Raise e => (Raise e, w)
    end.
Proof.
  intros Hlen. unfold resolve_spec, resolve_par, bind, lift, ret.
  rewrite Hlen. cbn [fst snd].
  destruct (unpack _) as [[[[[sh d] off] sl] it]|e]; [|reflexivity].
  by destruct (np_dtype ext d).
Qed.

Lemma resolve_spec_tuple_bad_length ext items w :
  (2 <=? length items)%nat && (length items <=? 5)%nat = false ->
  resolve_spec ext (SpecTuple items) w
  = (Raise (TypeError "spec must be tuple of length 2-5 or header object"), w).
Proof.
  intros Hlen. unfold resolve_spec, resolve_par, bind, raise.
  by rewrite Hlen.
Qed.

Lemma resolve_spec_header ext ref hd w :
  headers w !! ref = Some hd ->
  resolve_spec ext (SpecHeader ref) w
  = let w' := set_headers (<[fresh (dom (headers w)) := hd]> (headers w)) w in
    match np_dtype ext (hd_dtype hd) with
    | Ok dt =>
        (Ok {| as_header := Some (fresh (dom (headers w)));
               as_shape := hd_shape hd; as_dtype := dt;
               as_offset := hd_offset hd;
               as_slope := match hd_slope hd with None => 1 | Some s => s end;
               as_inter := match hd_inter hd with None => 0 | Some i => i end |},
         w')
    | Raise e => (Raise e, w')
    end.
Proof.
  intros Hhd.
  unfold resolve_spec, resolve_par, header_copy, header_get, bind, lift, ret.
  rewrite Hhd. cbn [fst snd headers set_headers]. rewrite Hhd.
  cbn [fst snd unpack as_num].
  by destruct (np_dtype ext (hd_dtype hd)).
Qed.

(** C7.  [resolve_spec] accepts a tuple of length 2 to 5, the omitted
    trailing items defaulting to offset 0, slope 1.0 and intercept 0.0,
    and a header object, whose unset slope or intercept becomes 1.0 or
    0.0; the dtype goes through [np.dtype].  A tuple of any other length
    and an object that is neither a header nor sized raise [TypeError]
    (the spec error); a dtype specifier that [np.dtype] rejects raises
    numpy's [TypeError] (the dtype error); [__init__] raises the same
    error whenever its [mmap] argument is valid. *)
Theorem resolve_spec_accepts_and_rejects (ext : collaborators) (w : world) :
  (forall sh d dt,
     np_dtype ext d = Ok dt ->
     resolve_spec ext (SpecTuple [VShape sh; VDtype d]) w
     = (Ok {| as_header := None; as_shape := sh; as_dtype := dt;
              as_offset := 0; as_slope := 1; as_inter := 0 |}, w))
  /\ (forall sh d off dt,
        np_dtype ext d = Ok dt ->
        resolve_spec ext (SpecTuple [VShape sh; VDtype d; VInt off]) w
        = (Ok {| as_header := None; as_shape := sh; as_dtype := dt;
                 as_offset := off; as_slope := 1; as_inter := 0 |}, w))
  /\ (forall sh d off sl dt,
        np_dtype ext d = Ok dt ->
        resolve_spec ext (SpecTuple [VShape sh; VDtype d; VInt off; VFloat sl]) w
        = (Ok {| as_header := None; as_shape := sh; as_dtype := dt;
                 as_offset := off; as_slope := sl; as_inter := 0 |}, w))
  /\ (forall sh d off sl it dt,
        np_dtype ext d = Ok dt ->
        resolve_spec ext
          (SpecTuple [VShape sh; VDtype d; VInt off; VFloat sl; VFloat it]) w
        = (Ok {| as_header := None; as_shape := sh; as_dtype := dt;
                 as_offset := off; as_slope := sl; as_inter := it |}, w))
  /\ (forall ref hd dt,
        headers w !! ref = Some hd ->
        np_dtype ext (hd_dtype hd) = Ok dt ->
        fst (resolve_spec ext (SpecHeader ref) w)
        = Ok {| as_header := Some (fresh (dom (headers w)));
                as_shape := hd_shape hd; as_dtype := dt;
                as_offset := hd_offset hd;
                as_slope := match hd_slope hd with None => 1 | Some s => s end;
                as_inter := match hd_inter hd with None => 0 | Some i => i end |})
  /\ (forall items,
        (length items < 2 \/ 5 < length items)%nat ->
        fst (resolve_spec ext (SpecTuple items) w)
        = Raise (TypeError "spec must be tuple of length 2-5 or header object"))
  /\ (exists msg, fst (resolve_spec ext SpecObject w) = Raise (TypeError msg))
  /\ (forall items sh d off sl it e,
        (2 <= length items <= 5)%nat ->
        unpack (items ++ drop (length items - 2) optional)
          = Ok (sh, d, off, sl, it) ->
        np_dtype ext d = Raise e ->
        fst (resolve_spec ext (SpecTuple items) w)
        = Raise (TypeError "data type not understood"))
  /\ (forall ref hd e,
        headers w !! ref = Some hd ->
        np_dtype ext (hd_dtype hd) = Raise e ->
        fst (resolve_spec ext (SpecHeader ref) w)
        = Raise (TypeError "data type not understood"))
  /\ (forall fl spec mmap k e,
        mmap_in_allowed mmap = true ->
        fst (resolve_spec ext spec w) = Raise e ->
        fst (__init__ ext fl spec mmap k w) = Raise e).
Proof.
  repeat apply conj.
  - intros sh d dt Hd. rewrite resolve_spec_tuple by done. simpl. by rewrite Hd.
  - intros sh d off dt Hd. rewrite resolve_spec_tuple by done. simpl.
    by rewrite Hd.
  - intros sh d off sl dt Hd. rewrite resolve_spec_tuple by done. simpl.
    by rewrite Hd.
  - intros sh d off sl it dt Hd. rewrite resolve_spec_tuple by done. simpl.
    by rewrite Hd.
  - intros ref hd dt Hhd Hd. rewrite (resolve_spec_header ext ref hd) by done.
    simpl. by rewrite Hd.
  - intros items Hlen. rewrite resolve_spec_tuple_bad_length; [done|].
    apply andb_false_iff. destruct Hlen as [H|H].
    + left. apply Nat.leb_gt. lia.
    + right. apply Nat.leb_gt. lia.
  - by eexists.
  - intros items sh d off sl it e Hlen Hun Hd.
    rewrite resolve_spec_tuple.
    + rewrite Hun, Hd. simpl. f_equal. by eapply np_dtype_raises.
    + apply andb_true_iff. split; apply Nat.leb_le; lia.
  - intros ref hd e Hhd Hd. rewrite (resolve_spec_header ext ref hd) by done.
    simpl. rewrite Hd. simpl. f_equal. by eapply np_dtype_raises.
  - intros fl spec mmap k e Hm He. unfold __init__. rewrite Hm.
    cbn [negb]. unfold bind at 1.
    destruct (resolve_spec ext spec w) as [[a|e'] w1]; cbn [fst] in *.
    + discriminate.
    + by injection He as ->.
Qed.

Lemma resolve_spec_accepts_and_rejects_witness :
  resolve_spec sample_ext (SpecTuple [VShape [4; 4; 2]; VDtype (DtStr "i2")])
    initial_world
  = (Ok {| as_header := None; as_shape := [4; 4; 2]; as_dtype := Dtype "int16";
           as_offset := 0; as_slope := 1; as_inter := 0 |}, initial_world)
  /\ fst (resolve_spec sample_ext (SpecTuple [VShape [4; 4; 2]]) initial_world)
     = Raise (TypeError "spec must be tuple of length 2-5 or header object")
  /\ fst (resolve_spec sample_ext
            (SpecTuple [VShape [4; 4; 2]; VDtype (DtStr "no such type")])
            initial_world)
     = Raise (TypeError "data type not understood").
Proof.
  pose proof (resolve_spec_accepts_and_rejects sample_ext initial_world)
    as (H2 & _ & _ & _ & _ & Hlen & _ & Hdt & _).
  split; [|split].
  - apply H2. reflexivity.
  - apply Hlen. simpl. lia.
  - apply (Hdt _ [4; 4; 2] (DtStr "no such type") 0 1%Q 0%Q
             (TypeError "data type not understood")).
    + simpl. lia.
    + reflexivity.
    + reflexivity.
Defined.

(** ** Reshape *)

Lemma reduce_mul_prod shape init :
  reduce_mul shape init = init * element_count shape.
Proof.
  unfold reduce_mul, element_count. revert init.
  induction shape as [|e shape IH]; intros init; simpl; [lia|].
  rewrite IH. ring.
Qed.

Lemma known_dims_no_unknown shape :
  unknowns shape = 0%nat -> known_dims shape = shape.
Proof.
  unfold unknowns, known_dims.
  induction shape as [|e shape IH]; [done|].
  destruct (decide (e = -1)) as [->|Hne].
  - rewrite filter_cons_True by done. discriminate.
  - rewrite filter_cons_False by done. intros H.
    rewrite filter_cons_True by done. by rewrite IH.
Qed.

Lemma element_count_one_unknown shape :
  unknowns shape = 1%nat ->
  element_count shape = - element_count (known_dims shape).
Proof.
  unfold unknowns, known_dims.
  induction shape as [|e shape IH]; [discriminate|].
  destruct (decide (e = -1)) as [->|Hne].
  - rewrite filter_cons_True by done. simpl. intros [= H].
    rewrite filter_cons_False by (intros Hx; by apply Hx).
    fold (known_dims shape). rewrite known_dims_no_unknown by done.
    unfold element_count. lia.
  - rewrite filter_cons_False by done. intros H.
    rewrite filter_cons_True by done. simpl.
    change (fold_right Z.mul 1 shape) with (element_count shape).
    change (fold_right Z.mul 1 (filter (fun e => e <> -1) shape))
      with (element_count (filter (fun e => e <> -1) shape)).
    rewrite IH by done. ring.
Qed.

(** *** Arithmetic in 64 bits *)











(** The shape [reshape] computes is the resolved shape of the
    specification. *)
Lemma reshape_shape_resolved size shape :
  (if (unknowns shape =? 1)%nat then
     map (fun e => if (e =? -1)%Z then size / reduce_mul shape (-1) else e) shape
   else shape)
  = resolved_shape size shape.
Proof.
  unfold resolved_shape. destruct (unknowns shape =? 1)%nat eqn:E; [|done].
  apply Nat.eqb_eq in E.
  rewrite reduce_mul_prod, element_count_one_unknown by done.
  by replace (-1 * - element_count (known_dims shape))
    with (element_count (known_dims shape)) by ring.
Qed.

Lemma reshape_unfold ext self shape w :
  reshape ext self shape w
  = if (1 <? unknowns shape)%nat then
      (Raise (ValueError "can only specify one unknown dimension"), w)
    else if negb (np_prod (resolved_shape (np_prod (_shape self)) shape)
                  =? np_prod (_shape self))%Z
    then (Raise (reshape_mismatch (_shape self)), w)
    else __init__ ext (file_like self)
           (SpecTuple [VShape (resolved_shape (np_prod (_shape self)) shape);
                       VDtype (DtObj (_dtype self)); VInt (_offset self);
                       VFloat (_slope self); VFloat (_inter self)])
           (_mmap self) KNone w.
Proof.
  unfold reshape. fold (unknowns shape).
  destruct (1 <? unknowns shape)%nat; [reflexivity|].
  rewrite reshape_shape_resolved.
  by destruct (negb _).
Qed.

(** What [__init__] returns on a five-item tuple with a dtype object. *)
Lemma init_from_full_tuple ext fl sh dt off sl it mmap w :
  __init__ ext fl
    (SpecTuple [VShape sh; VDtype (DtObj dt); VInt off; VFloat sl; VFloat it])
    mmap KNone w
  = if negb (mmap_in_allowed mmap) then
      (Raise (ValueError "mmap should be one of {True, False, 'c', 'r'}"), w)
    else
      match _should_keep_file_open (keep_file_open_default w)
              (HAVE_INDEXED_GZIP ext) fl KNone with
      | Ok k =>
          (Ok {| file_like := fl; _header := None; _shape := sh; _dtype := dt;
                 _offset := off; _slope := sl; _inter := it; _mmap := mmap;
                 _keep_file_open := k; _lock := fresh (locks w);
                 _opener := None |},
           set_locks ({[fresh (locks w)]} ∪ locks w) w)
      | Raise e => (Raise e, w)
      end.
Proof.
  unfold __init__. destruct (negb (mmap_in_allowed mmap)); [reflexivity|].
  unfold bind at 1. rewrite resolve_spec_tuple by done.
  cbn [app drop length Nat.sub unpack as_num np_dtype optional].
  unfold bind, lift, RLock, ret. cbn [as_header as_shape as_dtype as_offset
    as_slope as_inter].
  by destruct (_should_keep_file_open _ _ _ _).
Qed.




(** The placeholder is resolved by floor division: (3,) reshaped to
    (-1, 1) is (3, 1). *)
Example reshape_example :
  _shape <$> (match fst (reshape sample_ext (sample_proxy (KBool true))
                           [-1; 1] sample_world) with
              | Ok p => Some p | Raise _ => None end)
  = Some [3; 1].
Proof. reflexivity. Qed.

(** C10.  The proxy [reshape] returns takes its [keep_file_open] from
    [_should_keep_file_open] applied to [None], that is from the current
    global default, and its mmap mode from the parent; the parent's own
    [keep_file_open] plays no part. *)
Theorem reshape_does_not_inherit_keep_file_open (ext : collaborators)
    (self : ArrayProxy) (shape : list Z) (w : world) :
  (forall p w',
     reshape ext self shape w = (Ok p, w') ->
     _should_keep_file_open (keep_file_open_default w) (HAVE_INDEXED_GZIP ext)
       (file_like self) KNone = Ok (_keep_file_open p)
     /\ _mmap p = _mmap self)
  /\ (forall k,
        reshape ext (set_keep_file_open k self) shape w
        = reshape ext self shape w).
Proof.
  split.
  - intros p w'. rewrite reshape_unfold.
    destruct (1 <? unknowns shape)%nat; [discriminate|].
    destruct (negb _); [discriminate|].
    rewrite init_from_full_tuple.
    destruct (negb (mmap_in_allowed (_mmap self))); [discriminate|].
    destruct (_should_keep_file_open _ _ _ _); [|discriminate].
    by intros [= <- <-].
  - intros k. by rewrite !reshape_unfold.
Qed.

Lemma reshape_does_not_inherit_keep_file_open_witness :
  let parent := sample_proxy (KBool true) in
  let child := set_lock 1%nat
                 {| file_like := filename "img.nii"; _header := None;
                    _shape := [3; 1]; _dtype := Dtype "int16"; _offset := 0;
                    _slope := 1; _inter := 0; _mmap := MmapTrue;
                    _keep_file_open := KBool false; _lock := 0%nat;
                    _opener := None |} in
  _should_keep_file_open (keep_file_open_default sample_world)
    (HAVE_INDEXED_GZIP sample_ext) (file_like parent) KNone
  = Ok (_keep_file_open child)
  /\ _mmap child = _mmap parent.
Proof.
  intros parent child.
  apply (proj1 (reshape_does_not_inherit_keep_file_open sample_ext parent
                  [-1; 1] sample_world)
           child (snd (reshape sample_ext parent [-1; 1] sample_world))).
  vm_compute. reflexivity.
Defined.

(** A parent built with [keep_file_open=True] under the default [False]
    has a child with [keep_file_open] [False]. *)
Example reshape_child_policy_example :
  _keep_file_open <$> (match fst (reshape sample_ext (sample_proxy (KBool true))
                                    [-1; 1] sample_world) with
                       | Ok p => Some p | Raise _ => None end)
  = Some (KBool false).
Proof. reflexivity. Qed.

(** ** Isolation from the caller's header *)

Lemma set_headers_set_headers h1 h2 w :
  set_headers h2 (set_headers h1 w) = set_headers h2 w.
Proof. reflexivity. Qed.

Lemma mutate_header_set_headers ref muts w :
  mutate_header ref muts w
  = set_headers (headers (mutate_header ref muts w)) w.
Proof.
  unfold mutate_header. revert w.
  induction muts as [|hd muts IH]; intros w; simpl.
  - by destruct w.
  - etransitivity; [apply IH|]. reflexivity.
Qed.

Lemma mutate_header_other ref muts w c :
  c <> ref -> headers (mutate_header ref muts w) !! c = headers w !! c.
Proof.
  intros Hne. unfold mutate_header. revert w.
  induction muts as [|hd muts IH]; intros w; simpl; [done|].
  rewrite IH. unfold header_set. simpl. by rewrite lookup_insert_ne.
Qed.

Lemma ImageOpener_headers ext src k hs w :
  ImageOpener ext src k (set_headers hs w)
  = (fst (ImageOpener ext src k w),
     set_headers hs (snd (ImageOpener ext src k w))).
Proof. unfold ImageOpener. simpl. by destruct (can_open ext src). Qed.

Lemma close_if_mine_headers h hs w :
  close_if_mine h (set_headers hs w) = set_headers hs (close_if_mine h w).
Proof.
  unfold close_if_mine. simpl. destruct (openers w !! h) as [o|]; [|done].
  by destruct (me_opened o).
Qed.

Lemma blind_bind {A B} (c : PM A) (k : A -> PM B) :
  headers_blind c -> (forall a, headers_blind (k a)) ->
  headers_blind (bind c k).
Proof.
  intros Hc Hk self w hs. unfold bind. rewrite Hc.
  destruct (c (self, w)) as [[a|e] [self' w']]; cbn [fst snd]; [|done].
  apply Hk.
Qed.

Lemma blind_emit e : headers_blind (emit e).
Proof. by intros self w hs. Qed.

Lemma blind_with_lock {A} (body : PM A) :
  headers_blind body -> headers_blind (with_lock body).
Proof.
  intros Hb self w hs. unfold with_lock.
  change (log (EvAcquire (_lock self)) (set_headers hs w))
    with (set_headers hs (log (EvAcquire (_lock self)) w)).
  rewrite Hb.
  by destruct (body (self, log (EvAcquire (_lock self)) w)) as [r [self' w']].
Qed.

Lemma blind_get_fileobj ext {A} (body : option nat -> PM A) :
  (forall fileobj, headers_blind (body fileobj)) ->
  headers_blind (_get_fileobj ext body).
Proof.
  intros Hb self w hs. unfold _get_fileobj.
  destruct (truthy (_keep_file_open self)).
  - destruct (_opener self) as [o|]; [apply Hb|].
    rewrite ImageOpener_headers.
    destruct (ImageOpener ext _ _ w) as [[h|e] w1]; cbn [fst snd]; [|done].
    apply Hb.
  - rewrite ImageOpener_headers.
    destruct (ImageOpener ext _ _ w) as [[h|e] w1]; cbn [fst snd]; [|done].
    rewrite Hb.
    destruct (body (Some h) (self, w1)) as [r [self' w2]]. cbn [fst snd].
    by rewrite close_if_mine_headers.
Qed.

Lemma blind_get_unscaled ext : headers_blind (get_unscaled ext).
Proof.
  apply blind_get_fileobj. intros fileobj. apply blind_with_lock.
  apply blind_bind; [apply blind_emit|]. by intros [] self w hs.
Qed.

Lemma blind_scale {A} (f : ArrayProxy -> result A) :
  headers_blind (fun '(self, w) => (f self, (self, w))).
Proof. by intros self w hs. Qed.

(** A read does not look at the header objects. *)
Lemma run_read_headers ext op : headers_blind (run_read ext op).
Proof.
  destruct op as [| |slicer]; simpl.
  - apply blind_get_unscaled.
  - apply blind_bind; [apply blind_get_unscaled|].
    intros raw. apply (blind_scale (fun self =>
      apply_read_scaling ext raw (_slope self) (_inter self))).
  - apply blind_bind.
    + apply blind_get_fileobj. by intros fileobj self w hs.
    + intros raw. apply (blind_scale (fun self =>
        apply_read_scaling ext raw (_slope self) (_inter self))).
Qed.

Lemma run_reads_headers ext ops self w hs :
  fst (run_reads ext ops (self, set_headers hs w))
    = fst (run_reads ext ops (self, w))
  /\ snd (run_reads ext ops (self, set_headers hs w))
     = set_headers hs (snd (run_reads ext ops (self, w)))
  /\ read_results ext ops (self, set_headers hs w)
     = read_results ext ops (self, w).
Proof.
  revert self w. induction ops as [|op ops IH]; intros self w; simpl; [done|].
  rewrite run_read_headers.
  destruct (run_read ext op (self, w)) as [r [self' w']]. cbn [fst snd].
  destruct (IH self' w') as (H1 & H2 & H3). by rewrite H1, H2, H3.
Qed.

(** C8.  A proxy built from a header object holds the values the header
    reported at construction and a copy of the header that is a different
    object.  Whatever the caller then does to its header, the copy keeps
    its contents, and two runs that mutate the header differently get the
    same results from every sequence of reads and leave the same instance,
    trace and openers. *)
Theorem header_mutation_does_not_reach_proxy (ext : collaborators)
    (fl : file_like_t) (ref : nat) (mmap : mmap_t) (k : kfo)
    (w : world) (p : ArrayProxy) (w1 : world) :
  __init__ ext fl (SpecHeader ref) mmap k w = (Ok p, w1) ->
  (exists hd c,
     headers w !! ref = Some hd
     /\ _header p = Some c /\ c <> ref
     /\ _shape p = hd_shape hd
     /\ np_dtype ext (hd_dtype hd) = Ok (_dtype p)
     /\ _offset p = hd_offset hd
     /\ _slope p = match hd_slope hd with None => 1%Q | Some s => s end
     /\ _inter p = match hd_inter hd with None => 0%Q | Some i => i end
     /\ forall muts, headers (mutate_header ref muts w1) !! c = Some hd)
  /\ forall muts_a muts_b ops,
       let sa := (p, mutate_header ref muts_a w1) in
       let sb := (p, mutate_header ref muts_b w1) in
       read_results ext ops sa = read_results ext ops sb
       /\ fst (run_reads ext ops sa) = fst (run_reads ext ops sb)
       /\ trace (snd (run_reads ext ops sa)) = trace (snd (run_reads ext ops sb))
       /\ openers (snd (run_reads ext ops sa))
          = openers (snd (run_reads ext ops sb)).
Proof.
  intros Hinit. split.
  - apply init_ok_inv in Hinit as (_ & a & w0 & kk & Hres & _ & -> & ->).
    destruct (headers w !! ref) as [hd|] eqn:Hhd.
    + rewrite (resolve_spec_header ext ref hd) in Hres by done.
      cbn zeta in Hres.
      destruct (np_dtype ext (hd_dtype hd)) as [dt|e] eqn:Hdt; [|discriminate].
      injection Hres as <- <-.
      assert (Hne : fresh (dom (headers w)) <> ref).
      { intros Heq. apply (is_fresh (dom (headers w))).
        rewrite Heq. apply elem_of_dom. by eexists. }
      exists hd, (fresh (dom (headers w))). cbn.
      repeat (split; [done|]).
      intros muts. rewrite mutate_header_other by done.
      cbn. apply lookup_insert_eq.
    + exfalso. revert Hres.
      unfold resolve_spec, resolve_par, header_get, bind.
      by rewrite Hhd.
  - intros muts_a muts_b ops sa sb. subst sa sb.
    rewrite (mutate_header_set_headers ref muts_a w1).
    rewrite (mutate_header_set_headers ref muts_b w1).
    destruct (run_reads_headers ext ops p w1
                (headers (mutate_header ref muts_a w1))) as (A1 & A2 & A3).
    destruct (run_reads_headers ext ops p w1
                (headers (mutate_header ref muts_b w1))) as (B1 & B2 & B3).
    rewrite A1, A2, A3, B1, B2, B3. done.
Qed.

Lemma header_mutation_does_not_reach_proxy_witness :
  let w1 := snd (__init__ sample_ext (filename "img.nii") (SpecHeader 0)
                   MmapTrue KNone sample_header_world) in
  let changed := {| hd_shape := [1]; hd_dtype := DtStr "f4"; hd_offset := 8;
                    hd_slope := None; hd_inter := Some 5%Q |} in
  let sa := (sample_header_proxy, mutate_header 0 [changed] w1) in
  let sb := (sample_header_proxy, mutate_header 0 [] w1) in
  read_results sample_ext [ReadArray; ReadItem [SIndex 0]] sa
  = read_results sample_ext [ReadArray; ReadItem [SIndex 0]] sb.
Proof.
  intros w1 changed sa sb.
  apply (proj2 (header_mutation_does_not_reach_proxy sample_ext
                  (filename "img.nii") 0 MmapTrue KNone sample_header_world
                  sample_header_proxy w1 eq_refl)
           [changed] [] [ReadArray; ReadItem [SIndex 0]]).
Defined.

(** * Further properties of the module *)

(** ** The constructor's checks *)

Lemma resolve_spec_locks ext spec w :
  locks (snd (resolve_spec ext spec w)) = locks w.
Proof.
  unfold resolve_spec, resolve_par, header_copy, header_get, bind, lift,
    ret, raise.
  destruct spec as [items|ref|]; cbn [fst snd].
  - destruct (_ && _); cbn [fst snd]; [|done].
    destruct (unpack _) as [[[[[sh d] off] sl] it]|e]; cbn [fst snd]; [|done].
    by destruct (np_dtype ext d).
  - destruct (headers w !! ref) as [hd|] eqn:Hhd; cbn [fst snd headers set_headers];
      [|done].
    rewrite Hhd. cbn [fst snd unpack as_num].
    by destruct (np_dtype ext (hd_dtype hd)).
  - done.
Qed.

Lemma init_unfold ext fl spec mmap k w :
  __init__ ext fl spec mmap k w
  = if negb (mmap_in_allowed mmap) then
      (Raise (ValueError "mmap should be one of {True, False, 'c', 'r'}"), w)
    else
      match resolve_spec ext spec w with
      | (Ok a, w1) =>
          match _should_keep_file_open (keep_file_open_default w1)
                  (HAVE_INDEXED_GZIP ext) fl k with
          | Ok kk =>
              (Ok {| file_like := fl; _header := as_header a;
                     _shape := as_shape a; _dtype := as_dtype a;
                     _offset := as_offset a; _slope := as_slope a;
                     _inter := as_inter a; _mmap := mmap;
                     _keep_file_open := kk; _lock := fresh (locks w1);
                     _opener := None |},
               set_locks ({[fresh (locks w1)]} ∪ locks w1) w1)
          | Raise e => (Raise e, w1)
          end
      | (Raise e, w1) => (Raise e, w1)
      end.
Proof.
  unfold __init__. destruct (negb (mmap_in_allowed mmap)); [done|].
  unfold bind, lift, RLock, ret.
  destruct (resolve_spec ext spec w) as [[a|e] w1]; [|done].
  by destruct (_should_keep_file_open _ _ _ _).
Qed.

(** [__init__] succeeds exactly when its three checks pass, and the
    checks fail in the order of the source.  A value of [mmap] that is
    not allowed is reported first, before the spec is looked at.  Then a
    spec that does not resolve (or a dtype numpy rejects) is reported,
    whatever [keep_file_open] is; and [keep_file_open] is reported only
    when the spec has resolved, in the world the resolution left behind,
    header copy included.  A failed construction creates no lock. *)
Theorem init_succeeds_iff_checks_pass (ext : collaborators)
    (fl : file_like_t) (spec : spec_t) (mmap : mmap_t) (k : kfo) (w : world) :
  let keep := _should_keep_file_open (keep_file_open_default w)
                (HAVE_INDEXED_GZIP ext) fl k in
  is_ok (fst (__init__ ext fl spec mmap k w))
  = mmap_in_allowed mmap && is_ok (fst (resolve_spec ext spec w)) && is_ok keep
  /\ (mmap_in_allowed mmap = false ->
      __init__ ext fl spec mmap k w
      = (Raise (ValueError "mmap should be one of {True, False, 'c', 'r'}"), w))
  /\ (forall e,
        mmap_in_allowed mmap = true ->
        fst (resolve_spec ext spec w) = Raise e ->
        __init__ ext fl spec mmap k w
        = (Raise e, snd (resolve_spec ext spec w)))
  /\ (forall e,
        mmap_in_allowed mmap = true ->
        is_ok (fst (resolve_spec ext spec w)) = true ->
        keep = Raise e ->
        __init__ ext fl spec mmap k w
        = (Raise e, snd (resolve_spec ext spec w)))
  /\ (is_ok (fst (__init__ ext fl spec mmap k w)) = false ->
      locks (snd (__init__ ext fl spec mmap k w)) = locks w).
Proof.
  intros keep. rewrite init_unfold.
  destruct (mmap_in_allowed mmap); cbn [negb andb];
    [|by repeat split].
  pose proof (quiet_resolve_spec ext spec w) as (_ & _ & Hd).
  pose proof (resolve_spec_locks ext spec w) as Hl.
  destruct (resolve_spec ext spec w) as [[a|e0] w1];
    cbn [fst snd is_ok andb] in *.
  - rewrite Hd. fold keep.
    destruct keep as [kk|e1]; cbn [fst snd is_ok].
    + repeat split; try done.
    + repeat split; try done. by intros e _ _ [= <-].
  - repeat split; try done. by intros e _ [= <-].
Qed.

Lemma init_succeeds_iff_checks_pass_witness :
  __init__ sample_ext (filename "img.nii")
    (SpecTuple [VShape [3]; VDtype (DtStr "i2")]) MmapTrue KOther
    initial_world
  = (Raise (ValueError
              "keep_file_open should be one of {None, 'auto', True, False}"),
     initial_world)
  /\ __init__ sample_ext (filename "img.nii") (SpecTuple []) MmapTrue KOther
       initial_world
     = (Raise (TypeError "spec must be tuple of length 2-5 or header object"),
        initial_world)
  /\ __init__ sample_ext (filename "img.nii") (SpecTuple []) MmapOther KOther
       initial_world
     = (Raise (ValueError "mmap should be one of {True, False, 'c', 'r'}"),
        initial_world).
Proof.
  pose proof (init_succeeds_iff_checks_pass sample_ext (filename "img.nii")
                (SpecTuple [VShape [3]; VDtype (DtStr "i2")]) MmapTrue KOther
                initial_world) as (_ & _ & _ & H4 & _).
  pose proof (init_succeeds_iff_checks_pass sample_ext (filename "img.nii")
                (SpecTuple []) MmapTrue KOther initial_world)
    as (_ & _ & H3 & _).
  pose proof (init_succeeds_iff_checks_pass sample_ext (filename "img.nii")
                (SpecTuple []) MmapOther KOther initial_world)
    as (_ & H2 & _).
  split; [|split].
  - apply H4; reflexivity.
  - apply H3; reflexivity.
  - apply H2. reflexivity.
Defined.

(** [_should_keep_file_open] on a source that is an open stream, a
    [str], or an object without the method [endswith].  It raises its
    [ValueError] exactly when the flag, after [None] has been replaced by
    the global default, is none of ['auto'], [True], [False] - also when
    the source is an open stream.  What it returns is one of those three
    values; it is ['auto'] only for a source that is no stream and whose
    name ends in ['.gz'], with indexed gzip present.  The one other way
    to fail is the call [file_like.endswith('.gz')], reached exactly with
    ['auto'], indexed gzip present and a source that is no stream: on a
    source without that method it raises [AttributeError].  No other
    exception leaves the function. *)
Theorem should_keep_file_open_outcomes
    (default : kfo) (have_indexed_gzip : bool)
    (f : file_like_t) (keep_file_open : kfo) :
  let requested := requested_mode default keep_file_open in
  let r := _should_keep_file_open default have_indexed_gzip f keep_file_open in
  (kfo_in_auto_true_false requested = false <->
   r = Raise (ValueError
                "keep_file_open should be one of {None, 'auto', True, False}"))
  /\ (forall k, r = Ok k ->
        kfo_in_auto_true_false k = true
        /\ (k = KAuto ->
            requested = KAuto /\ is_open_stream f = false
            /\ indexed_access_available have_indexed_gzip f = true))
  /\ (r = Raise (AttributeError "endswith") <->
      requested = KAuto /\ have_indexed_gzip = true
      /\ is_open_stream f = false /\ as_str f = None)
  /\ (forall e, r = Raise e ->
        e = ValueError
              "keep_file_open should be one of {None, 'auto', True, False}"
        \/ e = AttributeError "endswith").
Proof.
  intros requested r. subst r. unfold _should_keep_file_open.
  fold (requested_mode default keep_file_open). fold requested.
  fold (is_open_stream f). unfold indexed_access_available.
  split; [|split; [|split]];
    destruct requested eqn:Hreq; cbn [kfo_in_auto_true_false negb];
    destruct (is_open_stream f) eqn:Hs; destruct have_indexed_gzip;
    destruct (as_str f) as [s|] eqn:Hstr;
    try destruct (endswith s ".gz") eqn:Hgz; cbn [negb andb].
  all: try (split; intros H; (done || discriminate H)).
  all: try (intros k H; discriminate H).
  all: try (intros k [= <-]; split; [done|]; intros Hk;
            (discriminate Hk || by repeat split)).
  all: try (split; [intros H; discriminate H
                   | intros (H1 & H2 & H3 & H4); discriminate]).
  all: try (intros e H; discriminate H).
  all: try (intros e [= <-]; first [by left | by right]).
Qed.

Lemma should_keep_file_open_outcomes_witness :
  _should_keep_file_open KOther false fileobj_stream KNone
  = Raise (ValueError
             "keep_file_open should be one of {None, 'auto', True, False}")
  /\ _should_keep_file_open (KBool false) true
       {| has_read := false; has_seek := false; as_str := None |} KAuto
     = Raise (AttributeError "endswith").
Proof.
  split.
  - apply (proj1 (should_keep_file_open_outcomes KOther false
                    fileobj_stream KNone)).
    reflexivity.
  - apply (proj1 (proj2 (proj2 (should_keep_file_open_outcomes (KBool false)
                                  true
                                  {| has_read := false; has_seek := false;
                                     as_str := None |} KAuto)))).
    by repeat split.
Defined.

(** ** The constructor and the caller's headers *)

(** Whatever spec it is given and whether or not it succeeds,
    [__init__] leaves every existing header object as it is; from a tuple
    it creates none, from a header object it creates at most one, the
    copy. *)
Theorem init_leaves_headers_alone (ext : collaborators)
    (fl : file_like_t) (spec : spec_t) (mmap : mmap_t) (k : kfo) (w : world) :
  let w' := snd (__init__ ext fl spec mmap k w) in
  (forall ref hd, headers w !! ref = Some hd -> headers w' !! ref = Some hd)
  /\ (forall items, spec = SpecTuple items -> headers w' = headers w)
  /\ (headers w' = headers w
      \/ exists ref hd,
           spec = SpecHeader ref /\ headers w !! ref = Some hd
           /\ headers w' = <[fresh (dom (headers w)) := hd]> (headers w)).
Proof.
  intros w'. subst w'. rewrite init_unfold.
  destruct (negb (mmap_in_allowed mmap)); cbn [snd].
  { split; [done|]. split; [done | by left]. }
  assert (Hres :
    headers (snd (resolve_spec ext spec w)) = headers w
    \/ exists ref hd,
         spec = SpecHeader ref /\ headers w !! ref = Some hd
         /\ headers (snd (resolve_spec ext spec w))
            = <[fresh (dom (headers w)) := hd]> (headers w)).
  { destruct spec as [items|ref|].
    - left. destruct ((2 <=? length items)%nat && (length items <=? 5)%nat)
        eqn:Hlen.
      + rewrite resolve_spec_tuple by done.
        destruct (unpack _) as [[[[[sh d] off] sl] it]|e]; [|done].
        by destruct (np_dtype ext d).
      + by rewrite resolve_spec_tuple_bad_length.
    - destruct (headers w !! ref) as [hd|] eqn:Hhd.
      + right. exists ref, hd. rewrite (resolve_spec_header ext ref hd) by done.
        cbn zeta. by destruct (np_dtype ext (hd_dtype hd)).
      + left. unfold resolve_spec, resolve_par, header_get, bind.
        by rewrite Hhd.
    - by left. }
  assert (Hsame :
    headers (snd (match resolve_spec ext spec w with
                  | (Ok a, w1) =>
                      match _should_keep_file_open (keep_file_open_default w1)
                              (HAVE_INDEXED_GZIP ext) fl k with
                      | Ok kk =>
                          (Ok {| file_like := fl; _header := as_header a;
                                 _shape := as_shape a; _dtype := as_dtype a;
                                 _offset := as_offset a; _slope := as_slope a;
                                 _inter := as_inter a; _mmap := mmap;
                                 _keep_file_open := kk;
                                 _lock := fresh (locks w1);
                                 _opener := None |},
                           set_locks ({[fresh (locks w1)]} ∪ locks w1) w1)
                      | Raise e => (Raise e, w1)
                      end
                  | (Raise e, w1) => (Raise e, w1)
                  end))
    = headers (snd (resolve_spec ext spec w))).
  { destruct (resolve_spec ext spec w) as [[a|e] w1]; [|done].
    by destruct (_should_keep_file_open _ _ _ _). }
  rewrite Hsame. split; [|split].
  - intros ref hd Hhd. destruct Hres as [-> | (r & hd' & _ & Hr & ->)]; [done|].
    rewrite lookup_insert_ne; [done|].
    intros Heq. apply (is_fresh (dom (headers w))).
    rewrite Heq. apply elem_of_dom. by eexists.
  - intros items ->. by destruct Hres as [-> | (r & hd' & [=] & _)].
  - exact Hres.
Qed.

Lemma init_leaves_headers_alone_witness :
  headers (snd (__init__ sample_ext (filename "img.nii") (SpecHeader 0)
                  MmapTrue KNone sample_header_world)) !! 0%nat
  = Some sample_header.
Proof.
  apply (proj1 (init_leaves_headers_alone sample_ext (filename "img.nii")
                  (SpecHeader 0) MmapTrue KNone sample_header_world)).
  reflexivity.
Defined.

(** ** The cached opener over the lifetime of a proxy *)

Lemma close_if_mine_dom h w :
  dom (openers (close_if_mine h w)) = dom (openers w).
Proof.
  unfold close_if_mine. destruct (openers w !! h) as [o|] eqn:Ho; [|done].
  destruct (me_opened o); [|done]. simpl. rewrite dom_insert_L.
  apply subseteq_union_1_L, singleton_subseteq_l, elem_of_dom. by eexists.
Qed.

Lemma close_if_mine_no_open h w :
  opener_invocations (trace (close_if_mine h w))
  = opener_invocations (trace w).
Proof.
  rewrite close_if_mine_trace, opener_invocations_app.
  destruct (openers w !! h) as [o|]; [destruct (me_opened o)|];
    unfold opener_invocations; simpl; lia.
Qed.

Lemma logs_no_open op l o w :
  opener_invocations (trace (logs (body_events op l o) w))
  = opener_invocations (trace w).
Proof.
  rewrite trace_logs, opener_invocations_app, body_events_no_open. lia.
Qed.

(** One step of a proxy whose [_opener] attribute exists. *)
Lemma run_op_assigned ext o self w opn :
  truthy (_keep_file_open self) = true ->
  _opener self = Some opn ->
  let s' := run_op ext o (self, w) in
  truthy (_keep_file_open (fst s')) = true
  /\ (_opener (fst s') = Some opn \/ _opener (fst s') = Some None)
  /\ opener_invocations (trace (snd s')) = opener_invocations (trace w)
  /\ dom (openers (snd s')) = dom (openers w).
Proof.
  intros Hk Ho.
  assert (Hsame : truthy (_keep_file_open self) = true
                  /\ (_opener self = Some opn \/ _opener self = Some None)
                  /\ opener_invocations (trace w) = opener_invocations (trace w)
                  /\ dom (openers w) = dom (openers w))
    by (split; [done|]; split; [by left|]; by split).
  destruct o as [op|]; cbn [run_op].
  - rewrite (run_read_cached ext op self w opn) by done. cbn [fst snd].
    split; [done|]. split; [by left|]. split; [apply logs_no_open | done].
  - unfold __del__. rewrite Ho. destruct opn as [h|]; [|exact Hsame].
    unfold opener_closed.
    destruct (openers w !! h) as [os|] eqn:Hos; simpl; [|exact Hsame].
    destruct (closed os); simpl; [exact Hsame|].
    split; [done|]. split; [by right|].
    split; [apply close_if_mine_no_open | apply close_if_mine_dom].
Qed.

(** Once [self._opener] has been assigned, no sequence of reads and
    [__del__] calls makes the proxy call [ImageOpener] again or creates an
    opener object: the attribute keeps its value or becomes [None]. *)
Theorem assigned_opener_is_never_replaced (ext : collaborators)
    (os : list proxy_op) (self : ArrayProxy) (w : world) (opn : option nat) :
  truthy (_keep_file_open self) = true ->
  _opener self = Some opn ->
  let s' := run_ops ext os (self, w) in
  (_opener (fst s') = Some opn \/ _opener (fst s') = Some None)
  /\ opener_invocations (trace (snd s')) = opener_invocations (trace w)
  /\ dom (openers (snd s')) = dom (openers w).
Proof.
  intros Hk Ho. cbn zeta. unfold run_ops.
  revert self w opn Hk Ho.
  induction os as [|o os IH]; intros self w opn Hk Ho; cbn [fold_left].
  - split; [by left|]. by split.
  - destruct (run_op_assigned ext o self w opn Hk Ho) as (Hk' & Ho' & Ht & Hd).
    destruct (run_op ext o (self, w)) as [self1 w1]. cbn [fst snd] in *.
    destruct Ho' as [Ho'|Ho'].
    + destruct (IH self1 w1 opn Hk' Ho') as (H1 & H2 & H3).
      split; [done|]. split; congruence.
    + destruct (IH self1 w1 None Hk' Ho') as (H1 & H2 & H3).
      split; [right; tauto|]. split; congruence.
Qed.

Lemma assigned_opener_is_never_replaced_witness :
  let s1 := snd (run_read sample_ext ReadArray
                   (sample_proxy (KBool true), sample_world)) in
  let s' := run_ops sample_ext
              [OpRead ReadUnscaled; OpDel; OpRead ReadArray; OpDel] s1 in
  opener_invocations (trace (snd s')) = opener_invocations (trace (snd s1)).
Proof.
  intros s1 s'.
  apply (assigned_opener_is_never_replaced sample_ext
           [OpRead ReadUnscaled; OpDel; OpRead ReadArray; OpDel]
           (fst s1) (snd s1) (Some 0%nat)); reflexivity.
Defined.

(** After [__del__] has closed the cached opener, [self._opener] exists
    and holds [None]: every later read hands [None] to the reader and
    nothing is opened again. *)
Theorem reads_after_teardown_get_none (ext : collaborators)
    (self : ArrayProxy) (w : world) (h : nat) (o : opener_state)
    (ops : list read_op) :
  truthy (_keep_file_open self) = true ->
  _opener self = Some (Some h) ->
  openers w !! h = Some o ->
  closed o = false ->
  let s1 := snd (__del__ (self, w)) in
  let s' := run_reads ext ops s1 in
  _opener (fst s1) = Some None
  /\ exists t,
       trace (snd s') = trace (snd s1) ++ t
       /\ fileobjs_used t = replicate (length ops) None
       /\ opener_invocations t = 0%nat.
Proof.
  intros Hk Ho Hh Hc. cbn zeta.
  unfold __del__ at 1 2 3. rewrite Ho. unfold opener_closed.
  rewrite Hh. simpl. rewrite Hc. simpl.
  split; [done|].
  destruct (run_reads_cached ext ops (set_opener (Some None) self)
              (close_if_mine h w) None) as (t & Hrun & Hopen & _ & Hobj);
    [done..|].
  exists t. rewrite Hrun. simpl. by repeat split.
Qed.

Lemma reads_after_teardown_get_none_witness :
  let s0 := snd (run_read sample_ext ReadArray
                   (sample_proxy (KBool true), sample_world)) in
  let s1 := snd (__del__ s0) in
  exists t,
    trace (snd (run_reads sample_ext [ReadArray; ReadUnscaled] s1))
    = trace (snd s1) ++ t
    /\ fileobjs_used t = replicate 2 None
    /\ opener_invocations t = 0%nat.
Proof.
  intros s0 s1.
  apply (proj2 (reads_after_teardown_get_none sample_ext (fst s0) (snd s0)
                  0%nat
                  {| op_source := filename "img.nii"; op_keep_open := KBool true;
                     me_opened := true; closed := false |}
                  [ReadArray; ReadUnscaled]
                  eq_refl eq_refl eq_refl eq_refl)).
Defined.

(** A keep-open proxy whose source cannot be opened caches nothing:
    every read calls [ImageOpener] again and raises its error, and the
    proxy and the openers stay as they were. *)
Theorem failed_opens_are_retried (ext : collaborators)
    (self : ArrayProxy) (w : world) (ops : list read_op) :
  truthy (_keep_file_open self) = true ->
  _opener self = None ->
  can_open ext (file_like self) = false ->
  read_results ext ops (self, w)
    = replicate (length ops) (Raise (IOError "cannot open"))
  /\ fst (run_reads ext ops (self, w)) = self
  /\ openers (snd (run_reads ext ops (self, w))) = openers w
  /\ opener_invocations (trace (snd (run_reads ext ops (self, w))))
     = (opener_invocations (trace w) + length ops)%nat.
Proof.
  intros Hk Ho Hc. revert w.
  induction ops as [|op ops IH]; intros w; cbn [read_results run_reads length replicate].
  - split; [done|]. split; [done|]. split; [done|]. cbn [fst snd]. lia.
  - rewrite run_read_first_fail by done. cbn [fst snd].
    destruct (IH (log (EvOpen (file_like self) (_keep_file_open self)) w))
      as (H1 & H2 & H3 & H4).
    rewrite H1, H2, H3, H4.
    split; [done|]. split; [done|]. split; [done|].
    cbn [trace log]. rewrite opener_invocations_app.
    unfold opener_invocations at 2. simpl. lia.
Qed.

Lemma failed_opens_are_retried_witness :
  let self := set_opener None
                {| file_like := filename "missing"; _header := None;
                   _shape := [3]; _dtype := Dtype "int16"; _offset := 0;
                   _slope := 1; _inter := 0; _mmap := MmapTrue;
                   _keep_file_open := KBool true; _lock := 0%nat;
                   _opener := None |} in
  read_results sample_ext [ReadArray; ReadArray] (self, sample_world)
  = replicate 2 (Raise (IOError "cannot open")).
Proof.
  intros self.
  apply (proj1 (failed_opens_are_retried sample_ext self sample_world
                  [ReadArray; ReadArray] eq_refl eq_refl eq_refl)).
Defined.

(** ** Sources handed in already open, and handles opened per read *)

Lemma closes_of_logs_body h op l o w :
  closes_of h (trace (logs (body_events op l o) w)) = closes_of h (trace w).
Proof. rewrite trace_logs, closes_of_app, body_events_no_close. lia. Qed.

(** One step of a proxy on an open stream. *)
Lemma run_op_stream ext o self w :
  truthy (_keep_file_open self) = false ->
  is_open_stream (file_like self) = true ->
  _opener self = None ->
  fst (run_op ext o (self, w)) = self
  /\ forall h, closes_of h (trace (snd (run_op ext o (self, w))))
               = closes_of h (trace w).
Proof.
  intros Hk Hs Ho. destruct o as [op|]; cbn [run_op].
  - destruct (can_open ext (file_like self)) eqn:Hc.
    + rewrite run_read_fresh by done. cbn [fst snd]. split; [done|].
      intros h. unfold close_if_mine. rewrite openers_logs, opened_lookup.
      cbn [me_opened]. fold (is_open_stream (file_like self)). rewrite Hs.
      cbn [negb]. rewrite closes_of_logs_body, trace_opened, closes_of_app.
      unfold closes_of at 2. simpl. lia.
    + rewrite run_read_fresh_fail by done. cbn [fst snd]. split; [done|].
      intros h. cbn [trace log]. rewrite closes_of_app.
      unfold closes_of at 2. simpl. lia.
  - unfold __del__. by rewrite Ho.
Qed.

(** A proxy constructed on a stream that is already open is given
    [keep_file_open] [False] whatever flag was passed, and over any
    sequence of reads and [__del__] calls it never caches an opener and
    never closes a file. *)
Theorem open_stream_is_never_kept_or_closed (ext : collaborators)
    (fl : file_like_t) (spec : spec_t) (mmap : mmap_t) (k : kfo)
    (w : world) (p : ArrayProxy) (w1 : world) (os : list proxy_op) :
  is_open_stream fl = true ->
  __init__ ext fl spec mmap k w = (Ok p, w1) ->
  _keep_file_open p = KBool false
  /\ fst (run_ops ext os (p, w1)) = p
  /\ forall h, closes_of h (trace (snd (run_ops ext os (p, w1))))
               = closes_of h (trace w1).
Proof.
  intros Hs Hinit.
  apply init_ok_inv in Hinit as (_ & a & w0 & kk & _ & Hkeep & _ & Hp).
  assert (Hkk : kk = KBool false).
  { revert Hkeep. unfold _should_keep_file_open.
    fold (is_open_stream fl). rewrite Hs.
    destruct (negb _); [discriminate|]. by intros [= <-]. }
  assert (Hk : truthy (_keep_file_open p) = false) by (by rewrite Hp, Hkk).
  assert (Hs' : is_open_stream (file_like p) = true) by (by rewrite Hp).
  assert (Ho : _opener p = None) by (by rewrite Hp).
  split; [by rewrite Hp, Hkk|].
  clear Hp Hkeep. unfold run_ops. revert w1.
  induction os as [|o os IH]; intros w1; cbn [fold_left]; [done|].
  destruct (run_op_stream ext o p w1 Hk Hs' Ho) as [Hself Hcl].
  destruct (run_op ext o (p, w1)) as [p1 w2]. cbn [fst snd] in *. subst p1.
  destruct (IH w2) as [H1 H2]. split; [done|].
  intros h. by rewrite H2, Hcl.
Qed.

Lemma open_stream_is_never_kept_or_closed_witness :
  fst (run_ops sample_ext [OpRead ReadArray; OpDel; OpRead ReadUnscaled]
         (sample_stream_proxy, sample_world))
  = sample_stream_proxy.
Proof.
  apply (proj1 (proj2 (open_stream_is_never_kept_or_closed sample_ext
           fileobj_stream (SpecTuple [VShape [3]; VDtype (DtStr "i2")])
           MmapTrue (KBool true) initial_world sample_stream_proxy
           sample_world [OpRead ReadArray; OpDel; OpRead ReadUnscaled]
           eq_refl eq_refl))).
Defined.

(** The openers after one read of a proxy that opens per read. *)
Lemma run_read_fresh_openers ext op self w :
  truthy (_keep_file_open self) = false ->
  is_open_stream (file_like self) = false ->
  fst (snd (run_read ext op (self, w))) = self
  /\ (openers (snd (snd (run_read ext op (self, w)))) = openers w
      \/ exists o,
           closed o = true
           /\ openers (snd (snd (run_read ext op (self, w))))
              = <[fresh (dom (openers w)) := o]> (openers w)).
Proof.
  intros Hk Hs. destruct (can_open ext (file_like self)) eqn:Hc.
  - rewrite run_read_fresh by done. cbn [fst snd]. split; [done|]. right.
    unfold close_if_mine. rewrite openers_logs, opened_lookup.
    cbn [me_opened]. fold (is_open_stream (file_like self)). rewrite Hs.
    cbn [negb]. eexists. split; [|cbn; by rewrite insert_insert_eq]. done.
  - rewrite run_read_fresh_fail by done. cbn [fst snd]. split; [done | by left].
Qed.

(** Under the open-per-read policy on a file name, any sequence of
    reads leaves the openers that existed before untouched, and every
    opener it created is closed afterwards, whether the reads returned or
    raised. *)
Theorem reads_leave_no_opener_open (ext : collaborators)
    (self : ArrayProxy) (ops : list read_op) (w : world) :
  truthy (_keep_file_open self) = false ->
  is_open_stream (file_like self) = false ->
  let s' := run_reads ext ops (self, w) in
  fst s' = self
  /\ (forall h o, openers w !! h = Some o -> openers (snd s') !! h = Some o)
  /\ (forall h o, openers (snd s') !! h = Some o -> openers w !! h = None ->
                  closed o = true).
Proof.
  intros Hk Hs. cbn zeta. revert w.
  induction ops as [|op ops IH]; intros w; cbn [run_reads].
  - cbn [fst snd]. split; [done|]. split; [done|].
    intros h o H1 H2. congruence.
  - destruct (run_read_fresh_openers ext op self w Hk Hs) as [Hself Hop].
    destruct (run_read ext op (self, w)) as [r [self1 w1]].
    cbn [fst snd] in *. subst self1.
    destruct (IH w1) as (H1 & H2 & H3). split; [done|].
    destruct Hop as [Hop | (o1 & Hcl & Hop)].
    + rewrite Hop in H2, H3. by split.
    + rewrite Hop in H2, H3. split.
      * intros h o Hh. apply H2. rewrite lookup_insert_ne; [done|].
        intros <-. by rewrite fresh_opener_unused in Hh.
      * intros h o Hh Hnew.
        destruct (decide (h = fresh (dom (openers w)))) as [->|Hne].
        -- specialize (H2 (fresh (dom (openers w))) o1).
           rewrite lookup_insert_eq in H2. specialize (H2 eq_refl).
           congruence.
        -- apply (H3 h o Hh). by rewrite lookup_insert_ne.
Qed.

Lemma reads_leave_no_opener_open_witness :
  let s' := run_reads sample_ext [ReadArray; ReadItem [SIndex 0]]
              (sample_proxy (KBool false), sample_world) in
  fst s' = sample_proxy (KBool false)
  /\ closed {| op_source := filename "img.nii"; op_keep_open := KBool false;
               me_opened := true; closed := true |} = true.
Proof.
  intros s'.
  pose proof (reads_leave_no_opener_open sample_ext
                (sample_proxy (KBool false))
                [ReadArray; ReadItem [SIndex 0]] sample_world
                eq_refl eq_refl) as (H1 & _ & H3).
  split; [exact H1|].
  apply (H3 1%nat); reflexivity.
Defined.

(** ** The lock around the raw read *)

Lemma lock_depth_app l d t1 t2 :
  lock_depth l d (t1 ++ t2) = lock_depth l (lock_depth l d t1) t2.
Proof.
  revert d. induction t1 as [|e t1 IH]; intros d; [done|].
  destruct e; simpl; apply IH.
Qed.

Lemma reads_under_lock_app l d t1 t2 :
  reads_under_lock l d (t1 ++ t2)
  = reads_under_lock l d t1 && reads_under_lock l (lock_depth l d t1) t2.
Proof.
  revert d. induction t1 as [|e t1 IH]; intros d; [done|].
  destruct e; simpl; rewrite ?IH; try done.
  by rewrite andb_assoc.
Qed.

(** A trace that leaves lock [l] free and makes its raw reads under it. *)
Lemma body_events_locked op l o :
  lock_depth l 0 (body_events op l o) = 0%nat
  /\ reads_under_lock l 0 (body_events op l o) = true.
Proof. destruct op; simpl; rewrite ?Nat.eqb_refl; by split. Qed.

(** The events one read adds. *)
Lemma run_read_locked ext op self w :
  exists t,
    trace (snd (snd (run_read ext op (self, w)))) = trace w ++ t
    /\ lock_depth (_lock self) 0 t = 0%nat
    /\ reads_under_lock (_lock self) 0 t = true.
Proof.
  pose proof (body_events_locked op (_lock self)) as Hbody.
  assert (Hclose : forall h (m : gmap nat opener_state),
    lock_depth (_lock self) 0
      match m !! h with
      | Some o => if me_opened o then [EvClose h] else []
      | None => []
      end = 0%nat
    /\ reads_under_lock (_lock self) 0
         match m !! h with
         | Some o => if me_opened o then [EvClose h] else []
         | None => []
         end = true).
  { intros h m. destruct (m !! h) as [o|]; [destruct (me_opened o)|]; by split. }
  destruct (truthy (_keep_file_open self)) eqn:Hk.
  - destruct (_opener self) as [o|] eqn:Ho.
    + rewrite (run_read_cached ext op self w o) by done.
      eexists. split; [reflexivity|]. apply Hbody.
    + destruct (can_open ext (file_like self)) eqn:Hc.
      * rewrite run_read_first by done. cbn [fst snd].
        rewrite trace_logs, trace_opened, <- app_assoc.
        eexists. split; [reflexivity|].
        destruct (Hbody (Some (fresh (dom (openers w))))) as [H1 H2].
        split; simpl; [exact H1 | exact H2].
      * rewrite run_read_first_fail by done. cbn [fst snd trace log].
        eexists. split; [reflexivity|]. by split.
  - destruct (can_open ext (file_like self)) eqn:Hc.
    + rewrite run_read_fresh by done. cbn [fst snd].
      rewrite close_if_mine_trace, trace_logs, trace_opened, <- !app_assoc.
      eexists. split; [reflexivity|].
      destruct (Hbody (Some (fresh (dom (openers w))))) as [H1 H2].
      destruct (Hclose (fresh (dom (openers w)))
                  (openers (logs (body_events op (_lock self)
                                    (Some (fresh (dom (openers w)))))
                              (opened (file_like self) (KBool false) w))))
        as [H3 H4].
      split.
      * simpl. rewrite lock_depth_app, H1. exact H3.
      * simpl. rewrite reads_under_lock_app, H2, H1. exact H4.
    + rewrite run_read_fresh_fail by done. cbn [fst snd trace log].
      eexists. split; [reflexivity|]. by split.
Qed.

(** Over any sequence of reads, under either policy and whether the
    opener or the reader fail or not, every call of [array_from_file]
    happens while the proxy's lock is held, and the lock is free again
    afterwards. *)
Theorem raw_reads_hold_the_lock (ext : collaborators)
    (ops : list read_op) (self : ArrayProxy) (w : world) :
  exists t,
    trace (snd (run_reads ext ops (self, w))) = trace w ++ t
    /\ lock_depth (_lock self) 0 t = 0%nat
    /\ reads_under_lock (_lock self) 0 t = true.
Proof.
  revert self w. induction ops as [|op ops IH]; intros self w; cbn [run_reads].
  - exists []. by rewrite app_nil_r.
  - destruct (run_read_locked ext op self w) as (t1 & Ht1 & Hd1 & Hr1).
    destruct (run_read_instance ext op self w) as [o Hself].
    destruct (run_read ext op (self, w)) as [r [self1 w1]].
    cbn [fst snd] in *. subst self1.
    destruct (IH (set_opener o self) w1) as (t2 & Ht2 & Hd2 & Hr2).
    cbn [_lock set_opener] in *.
    exists (t1 ++ t2). rewrite Ht2, Ht1, <- app_assoc. split; [done|].
    rewrite lock_depth_app, reads_under_lock_app, Hd1, Hr1. by split.
Qed.

(** ** Restoring state *)

(** [__setstate__] on any instance dictionary and any state: an attribute
    of the state replaces the instance's, an attribute the state lacks is
    kept, and ["_lock"] always becomes a lock created at that moment, also
    when the state carries a lock of its own. *)
Theorem setstate_updates_and_relocks (self_dict state : gmap string attr)
    (w : world) :
  exists d,
    fst (__setstate__ self_dict state w) = Ok d
    /\ d !! "_lock" = Some (ALock (fresh (locks w)))
    /\ (fresh (locks w) ∉ locks w)
    /\ locks (snd (__setstate__ self_dict state w))
       = {[fresh (locks w)]} ∪ locks w
    /\ forall k, k <> "_lock" ->
         d !! k = match state !! k with
                  | Some v => Some v
                  | None => self_dict !! k
                  end.
Proof.
  eexists. unfold __setstate__, bind, RLock, ret. cbn [fst snd].
  split; [reflexivity|]. split; [apply lookup_insert_eq|].
  split; [apply is_fresh|]. split; [done|].
  intros k Hk. rewrite lookup_insert_ne by done.
  rewrite lookup_union. destruct (state !! k), (self_dict !! k); done.
Qed.

Lemma setstate_updates_and_relocks_witness :
  exists d,
    fst (__setstate__ (__dict__ (sample_proxy (KBool true)))
           {["_lock" := ALock 7%nat; "_mmap" := AMmap MmapFalse]}
           sample_world) = Ok d
    /\ d !! "_lock" = Some (ALock (fresh (locks sample_world)))
    /\ d !! "_mmap" = Some (AMmap MmapFalse)
    /\ d !! "_keep_file_open" = Some (AKfo (KBool true)).
Proof.
  destruct (setstate_updates_and_relocks
              (__dict__ (sample_proxy (KBool true)))
              {["_lock" := ALock 7%nat; "_mmap" := AMmap MmapFalse]}
              sample_world) as (d & Hd & Hl & _ & _ & Hk).
  exists d. split; [exact Hd|]. split; [exact Hl|]. split.
  - rewrite (Hk "_mmap") by done. reflexivity.
  - rewrite (Hk "_keep_file_open") by done. reflexivity.
Defined.

(** ** Reshape: placeholders and composition *)















(** ** The free functions *)



(** ** Scaling of what was read *)


(** ** Threads and the lock *)

Lemma lock_inv_start n self w : lock_inv (start_threads n self w).
Proof.
  split; cbn [fst snd start_threads sh_holder].
  - intros i pc Hi. apply lookup_replicate in Hi as [-> _]. discriminate.
  - discriminate.
Qed.

(** A step between two points outside the lock that leaves the holder. *)
Lemma lock_inv_outside ths s tid pc pc' s' :
  lock_inv (ths, s) -> ths !! tid = Some pc ->
  in_critical pc = false -> in_critical pc' = false ->
  sh_holder s' = sh_holder s ->
  lock_inv (<[tid := pc']> ths, s').
Proof.
  intros [Ha Hb] Hpc Hn Hn' Hh. split; cbn [fst snd] in *.
  - intros i pci Hi Hc. apply list_lookup_insert_Some in Hi
      as [(<- & <- & _) | (Hne & Hi)]; [congruence|].
    rewrite Hh. by apply (Ha i pci).
  - intros t d Ht. rewrite Hh in Ht.
    destruct (Hb t d Ht) as (-> & pc0 & Hpc0 & Hc0). split; [done|].
    exists pc0. split; [|done].
    rewrite list_lookup_insert_ne; [done|]. intros <-. congruence.
Qed.

(** A step inside the lock. *)
Lemma lock_inv_inside ths s tid pc pc' s' :
  lock_inv (ths, s) -> ths !! tid = Some pc ->
  in_critical pc = true -> in_critical pc' = true ->
  sh_holder s' = sh_holder s ->
  lock_inv (<[tid := pc']> ths, s').
Proof.
  intros [Ha Hb] Hpc Hc Hc' Hh. split; cbn [fst snd] in *.
  - intros i pci Hi Hci. rewrite Hh.
    apply list_lookup_insert_Some in Hi as [(<- & <- & _) | (Hne & Hi)].
    + by apply (Ha tid pc).
    + by apply (Ha i pci).
  - intros t d Ht. rewrite Hh in Ht.
    destruct (Hb t d Ht) as (-> & pc0 & Hpc0 & Hc0). split; [done|].
    destruct (decide (t = tid)) as [->|Hne].
    + exists pc'. split; [|done].
      apply list_lookup_insert_eq. by eapply lookup_lt_Some.
    + exists pc0. split; [|done]. by rewrite list_lookup_insert_ne.
Qed.

(** Taking the free lock. *)
Lemma lock_inv_acquire ths s tid pc pc' s' :
  lock_inv (ths, s) -> ths !! tid = Some pc ->
  sh_holder s = None -> in_critical pc' = true ->
  sh_holder s' = Some (tid, 1%nat) ->
  lock_inv (<[tid := pc']> ths, s').
Proof.
  intros [Ha Hb] Hpc Hfree Hc' Hh. split; cbn [fst snd] in *.
  - intros i pci Hi Hci.
    apply list_lookup_insert_Some in Hi as [(<- & <- & _) | (Hne & Hi)];
      [done|].
    specialize (Ha i pci Hi Hci). congruence.
  - intros t d Ht. rewrite Hh in Ht. injection Ht as <- <-. split; [done|].
    exists pc'. split; [|done].
    apply list_lookup_insert_eq. by eapply lookup_lt_Some.
Qed.

(** Giving the lock back. *)
Lemma lock_inv_release ths s tid pc pc' s' :
  lock_inv (ths, s) -> ths !! tid = Some pc ->
  in_critical pc = true -> in_critical pc' = false ->
  sh_holder s' = None ->
  lock_inv (<[tid := pc']> ths, s').
Proof.
  intros [Ha Hb] Hpc Hc Hn' Hh. split; cbn [fst snd] in *.
  - intros i pci Hi Hci.
    apply list_lookup_insert_Some in Hi as [(<- & <- & _) | (Hne & Hi)];
      [congruence|].
    pose proof (Ha i pci Hi Hci) as H1. pose proof (Ha tid pc Hpc Hc) as H2.
    congruence.
  - intros t d Ht. congruence.
Qed.

Lemma lock_inv_step ext st tid : lock_inv st -> lock_inv (sched_step ext st tid).
Proof.
  destruct st as [ths s]. intros Hinv. unfold sched_step. cbn [fst snd].
  destruct (ths !! tid) as [pc|] eqn:Hpc; [|done].
  destruct pc as [| | | |fo mine|fo mine|fo mine r|h r|r]; cbn [thread_step].
  - (* AtEnter *)
    destruct (truthy _); [destruct (_opener _)|];
      by eapply lock_inv_outside.
  - (* AtCreate *)
    destruct (ImageOpener ext _ _ _) as [[h|e] w1];
      by eapply lock_inv_outside.
  - (* AtYield *)
    destruct (_opener _); by eapply lock_inv_outside.
  - (* AtOpenFresh *)
    destruct (ImageOpener ext _ _ _) as [[h|e] w1];
      by eapply lock_inv_outside.
  - (* AtAcquire *)
    destruct (sh_holder s) as [[t d]|] eqn:Hh.
    + destruct (Nat.eqb t tid) eqn:Ht.
      * apply Nat.eqb_eq in Ht as ->.
        destruct Hinv as [_ Hb]. cbn [fst snd] in Hb.
        destruct (Hb tid d Hh) as (_ & pc0 & Hpc0 & Hc0).
        rewrite Hpc in Hpc0. injection Hpc0 as <-. discriminate.
      * by rewrite list_insert_id.
    + by eapply lock_inv_acquire.
  - (* AtRead *)
    by eapply lock_inv_inside.
  - (* AtRelease *)
    assert (Hh : sh_holder s = Some (tid, 1%nat))
      by (by apply (proj1 Hinv tid (AtRelease fo mine r))).
    eapply lock_inv_release; try done.
    + by destruct mine.
    + cbn [sh_holder]. by rewrite Hh.
  - (* AtExit *)
    by eapply lock_inv_outside.
  - (* Finished *)
    by rewrite list_insert_id.
Qed.

Lemma lock_inv_run ext sched st :
  lock_inv st -> lock_inv (run_schedule ext sched st).
Proof.
  unfold run_schedule. revert st.
  induction sched as [|tid sched IH]; intros st Hinv; cbn [fold_left]; [done|].
  by apply IH, lock_inv_step.
Qed.

(** However many threads call [get_unscaled] on one proxy and however
    they are scheduled, at most one of them is between the acquisition
    and the release of the proxy's lock, that is inside
    [array_from_file], at any time. *)
Theorem lock_serialises_raw_reads (ext : collaborators) (n : nat)
    (self : ArrayProxy) (w : world) (sched : list nat) :
  let st := run_schedule ext sched (start_threads n self w) in
  forall i j pci pcj,
    fst st !! i = Some pci -> fst st !! j = Some pcj ->
    in_critical pci = true -> in_critical pcj = true ->
    i = j.
Proof.
  intros st i j pci pcj Hi Hj Hci Hcj.
  destruct (lock_inv_run ext sched (start_threads n self w)
              (lock_inv_start n self w)) as [Ha _].
  fold st in Ha.
  pose proof (Ha i pci Hi Hci) as H1. pose proof (Ha j pcj Hj Hcj) as H2.
  congruence.
Qed.

Lemma lock_serialises_raw_reads_witness :
  let st := run_schedule sample_ext [0; 1; 0; 1; 0; 0; 1; 1; 0]%nat
              (start_threads 2 (sample_proxy (KBool true)) sample_world) in
  fst st = [AtRelease (Some 1%nat) None (Ok [0%Q; 1%Q; 2%Q]);
            AtAcquire (Some 1%nat) None]
  /\ 0%nat = 0%nat.
Proof.
  intros st. split; [reflexivity|].
  apply (lock_serialises_raw_reads sample_ext 2 (sample_proxy (KBool true))
           sample_world [0; 1; 0; 1; 0; 0; 1; 1; 0]%nat 0%nat 0%nat
           (AtRelease (Some 1%nat) None (Ok [0%Q; 1%Q; 2%Q]))
           (AtRelease (Some 1%nat) None (Ok [0%Q; 1%Q; 2%Q])));
    reflexivity.
Defined.
